(** * File integrity monitor: the scanning, baseline and diff engine

    A shallow embedding of [monitor.py] (exclusion matcher, path walker,
    fingerprint extractor, baseline builder, diff engine) and the
    properties of it that the specification states.

    Conventions of the embedding:
    - a Python [str] is a Rocq [string]; characters are compared by code,
      so [sorted] on strings is the lexicographic order [String.le];
    - a [Dict[str, Dict]] baseline is a [gmap string FileInfo.t]: the
      inner dict is what [asdict] makes of the [FileInfo] dataclass;
    - a Python [float] is an IEEE-754 value, [spec_float], compared with
      [SFeqb] (so a NaN differs from everything, itself included);
    - a raised exception is the left summand of [exn + A];
    - the file system is read, never written: it is an explicit argument
      (a directory tree for the walker, [stat] and [open] oracles keyed by
      the path string for the extractor). *)

From Stdlib Require Import ZArith List Bool Ascii.
From Stdlib Require Import Floats.SpecFloat.
From stdpp Require Import gmap strings list sorting.

Local Open Scope Z_scope.

(** ** Exceptions *)

(** The subclasses of [OSError] that the source names, and the rest of
    that class. *)
Inductive os_error : Type :=
| PermissionError
| FileNotFoundError
| OtherOSError (errno : Z).

Inductive exn : Type :=
| OSError (e : os_error)
| ValueError (msg : string)
| TypeError
| KeyError (key : string).

(** [except (PermissionError, FileNotFoundError, OSError)], and
    [except OSError]: both catch exactly the class [OSError]. *)
Definition is_OSError (e : exn) : bool :=
  match e with
  | OSError _ => true
  | _ => false
  end.

(** The error monad of raising code. *)
Definition result (A : Type) : Type := exn + A.

Definition ret {A} (a : A) : result A := inr a.
Definition raise {A} (e : exn) : result A := inl e.
Definition bind {A B} (m : result A) (k : A -> result B) : result B :=
  match m with
  | inl e => inl e
  | inr a => k a
  end.

Notation "'let*' x ':=' m 'in' k" := (bind m (fun x => k))
  (at level 10, x name, m at level 100, k at level 200).

(** A [for] loop whose body may raise: the first exception ends it. *)
Fixpoint for_each {A S} (body : S -> A -> result S) (items : list A) (s : S)
  : result S :=
  match items with
  | [] => ret s
  | x :: rest => let* s' := body s x in for_each body rest s'
  end.

(** ** Python's [!=] on the values a record holds *)

Class PyEq (A : Type) := py_eq : A -> A -> bool.

Definition py_ne {A} `{PyEq A} (a b : A) : bool := negb (py_eq a b).

#[global] Instance str_PyEq : PyEq string := fun a b => bool_decide (a = b).
#[global] Instance int_PyEq : PyEq Z := Z.eqb.
#[global] Instance float_PyEq : PyEq spec_float := SFeqb.
(** [None == None]; [None] equals no integer. *)
#[global] Instance optional_PyEq {A} `{PyEq A} : PyEq (option A) :=
  fun a b =>
    match a, b with
    | None, None => true
    | Some x, Some y => py_eq x y
    | _, _ => false
    end.

(** [==] is symmetric: the law that the four field types obey. *)
Class PyEqSym (A : Type) `{PyEq A} : Prop :=
  py_eq_sym : ∀ a b : A, py_eq a b = py_eq b a.

(** ** The data model *)

Module FileInfo.
(** [@dataclass class FileInfo]: [mode] is [None] unless permissions are
    tracked. *)
Record t : Type := mk {
  hash : string;
  size : Z;
  mtime : spec_float;
  mode : option Z
}.
End FileInfo.

(** [Dict[str, Dict]]: path string to record. *)
Abbreviation Baseline := (gmap string FileInfo.t).

(** The dict that [diff_states] returns, with its four fixed keys. *)
Record DiffResult : Type := mkDiff {
  added : list string;
  removed : list string;
  modified : list string;
  meta_changed : list string
}.

(** ** Paths *)

(** A [pathlib] path on a POSIX system: whether it is anchored at the
    root ["/"], and its name components in order. *)
Record Path : Type := mkPath {
  absolute : bool;
  names : list string
}.

#[global] Instance Path_eq_dec : EqDecision Path.
Proof. solve_decision. Defined.

(** [path.parts]: the anchor, when there is one, is a part of its own. *)
Definition parts (p : Path) : list string :=
  (if absolute p then ["/"] else []) ++ names p.

(** [str(path)]; the empty relative path prints as ["."] . *)
Definition str (p : Path) : string :=
  if absolute p then "/" +:+ String.concat "/" (names p)
  else match names p with
       | [] => "."
       | _ => String.concat "/" (names p)
       end.

(** [path.name]: the last component, or the empty string. *)
Definition name (p : Path) : string := default "" (last (names p)).

(** [path / fname] for a plain file name. *)
Definition truediv (p : Path) (fname : string) : Path :=
  {| absolute := absolute p; names := names p ++ [fname] |}.

(** [path.relative_to(root)]: [None] stands for the [ValueError] raised
    when [root]'s parts are not a prefix of [path]'s. *)
Definition relative_to (p root : Path) : option Path :=
  if bool_decide (absolute p = absolute root)
     && bool_decide (names root `prefix_of` names p)
  then Some {| absolute := false;
               names := drop (length (names root)) (names p) |}
  else None.

(** [s.startswith(prefix)]. *)
Definition startswith (s prefix : string) : bool := String.prefix prefix s.

(** [s.split(sep)] for a one-character separator: the segments of a path
    string. *)
Fixpoint split_on (sep : ascii) (s : string) : list string :=
  match s with
  | EmptyString => [""]
  | String c rest =>
      if Ascii.eqb c sep then "" :: split_on sep rest
      else match split_on sep rest with
           | [] => [String c ""]
           | w :: ws => String c w :: ws
           end
  end.

(** A path string has a hidden segment when one of its ["/"]-separated
    segments begins with a dot. *)
Definition has_hidden_segment (key : string) : bool :=
  existsb (fun seg => startswith seg ".") (split_on "/"%char key).

(** What a directory listing and [resolve] can produce as a component:
    not empty, and free of the separator. *)
Fixpoint has_char (c : ascii) (s : string) : bool :=
  match s with
  | EmptyString => false
  | String d rest => Ascii.eqb d c || has_char c rest
  end.

Definition valid_name (n : string) : bool :=
  negb (bool_decide (n = "")) && negb (has_char "/"%char n).

Definition wf_path (p : Path) : bool :=
  absolute p && forallb valid_name (names p).

(** ** The environment: libraries and operating system

    [fnmatch] and [hashlib] are library code and the file system is the
    machine's; the engine is a function of them.

    The directory tree is what the walker probes: a [Leaf] is an entry on
    which [is_dir] is false, with what [is_file] answers or raises on it;
    a [Node] is an entry on which [is_dir] is true, with whether it is
    reached through a symbolic link, whether [scandir] succeeds on it, and
    its listing.  [stat] and [open] take the path string, as the system
    calls do; nothing relates them to the tree, so a file may vanish or
    turn unreadable between the walk and the read. *)

#[warnings="-register-all"]
Inductive tree : Type :=
| Leaf (probe : os_error + bool)
| Node (is_link : bool) (scandir_ok : bool) (entries : list (string * tree)).

Record stat_result : Type := {
  st_mode : Z;
  st_size : Z;
  st_mtime : spec_float
}.

(** What the successive [f.read(CHUNK_SIZE)] calls on an open file
    return: chunks, then the end of the file, unless a read fails. *)
Inductive read_stream : Type :=
| EOF
| Chunk (data : list Byte.byte) (rest : read_stream)
| ReadError (e : os_error).

Record Env : Type := {
  (** [fnmatch.fnmatch(name, pattern)] *)
  fnmatch : string → string → bool;
  (** [hashlib.new(name)]: for a supported name, the digest as a function
      of all the bytes fed; [hexdigest()] without a length raises
      [TypeError] on the extendable-output algorithms, [None] here. *)
  algorithms : string → option (list Byte.byte → option string);
  (** [Path.resolve], where it returns.  A call that raises (a
      [RuntimeError] on a loop of symbolic links) ends [iter_files] and
      [build_baseline] before any root is looked at; such calls are not in
      the model, which starts from roots that resolve. *)
  resolve : Path → Path;
  (** the directory tree under ["/"] *)
  root_dir : tree;
  (** [os.stat(path)] *)
  fs_stat : string → os_error + stat_result;
  (** [open(path, "rb")] *)
  fs_open : string → os_error + read_stream
}.

(** The size asked of each [read]; a [Chunk] holds at most that much. *)
Definition CHUNK_SIZE : Z := 1024 * 1024.

(** [stat.S_IMODE]: the permission bits of a mode. *)
Definition S_IMODE (mode : Z) : Z := Z.land mode 4095.

(** A generator that may end by raising: what it yields, in order, and the
    exception that ends it, if one does. *)
Definition generator (A : Type) : Type := list A * option exn.

Definition gen_app {A} (yielded : list A) (g : generator A) : generator A :=
  (yielded ++ g.1, g.2).

Definition dirnames_of (entries : list (string * tree)) : list string :=
  flat_map (fun e => match e.2 with Node _ _ _ => [e.1] | Leaf _ => [] end)
           entries.

Definition filenames_of (entries : list (string * tree)) : list string :=
  flat_map (fun e => match e.2 with Leaf _ => [e.1] | Node _ _ _ => [] end)
           entries.

Fixpoint lookup_entry (n : string) (entries : list (string * tree))
  : option tree :=
  match entries with
  | [] => None
  | e :: rest => if bool_decide (e.1 = n) then Some e.2
                 else lookup_entry n rest
  end.

(** The entry that a sequence of names leads to from a directory. *)
Fixpoint fs_lookup (t : tree) (ns : list string) : option tree :=
  match ns with
  | [] => Some t
  | n :: rest =>
      match t with
      | Node _ _ entries =>
          match lookup_entry n entries with
          | Some sub => fs_lookup sub rest
          | None => None
          end
      | Leaf _ => None
      end
  end.

(** [os.walk(top, followlinks=...)], top-down, errors of [scandir]
    ignored.  The consumer edits the yielded [dirnames] list in place
    before the walk goes on; the edit of [iter_files] keeps the names that
    satisfy a test, which is the argument [keep].  A kept directory is
    entered unless it is a symbolic link and links are not followed. *)
Fixpoint walk_tree (keep : string → bool) (followlinks : bool) (top : Path)
    (t : tree) {struct t} : list (Path * list string * list string) :=
  match t with
  | Leaf _ => []
  | Node _ false _ => []
  | Node _ true entries =>
      (top, dirnames_of entries, filenames_of entries) ::
      (fix descend (es : list (string * tree)) :=
         match es with
         | [] => []
         | (d, sub) :: rest =>
             match sub with
             | Leaf _ => descend rest
             | Node is_link _ _ =>
                 (if keep d && (followlinks || negb is_link)
                  then walk_tree keep followlinks (truediv top d) sub
                  else [])
                 ++ descend rest
             end
         end) entries
  end.

(** The recursive calls of the walk for one entry of a listing; the walk
    of a directory is its visit followed by these, entry after entry. *)
Definition descend (keep : string → bool) (followlinks : bool) (top : Path)
    (e : string * tree) : list (Path * list string * list string) :=
  match e.2 with
  | Leaf _ => []
  | Node is_link _ _ =>
      if keep e.1 && (followlinks || negb is_link)
      then walk_tree keep followlinks (truediv top e.1) e.2
      else []
  end.

(** What the generator [iter_files] does, step by step: for a root that
    is a regular file, the probe of it and what is yielded; for a
    directory that [os.walk] lists, the directory and the files yielded
    from its listing. *)
Inductive step : Type :=
| Probe (root : Path) (yielded : list Path)
| Listing (dpath : Path) (yielded : list Path).

Definition yielded_of (s : step) : list Path :=
  match s with
  | Probe _ yielded => yielded
  | Listing _ yielded => yielded
  end.

(** The edit of [dirnames] in [iter_files]. *)
Definition keep_dir (ignore_hidden : bool) (d : string) : bool :=
  if ignore_hidden then negb (startswith d ".") else true.

Section Engine.
Context (env : Env).

(** *** [_is_hidden] *)
Definition _is_hidden (path : Path) : bool :=
  existsb (fun part => startswith part ".") (parts path).

(** *** [_should_exclude] *)
Definition match_any (patterns : list string) (s : string) : bool :=
  existsb (fun pat => fnmatch env s pat) patterns.

(** The [for root in roots] loop; a [ValueError] of [relative_to] moves
    on to the next root. *)
Fixpoint match_under_roots (path : Path) (patterns : list string)
    (roots : list Path) : bool :=
  match roots with
  | [] => false
  | root :: rest =>
      match relative_to path root with
      | Some rel =>
          if match_any patterns (str rel) then true
          else match_under_roots path patterns rest
      | None => match_under_roots path patterns rest
      end
  end.

Definition _should_exclude (path : Path) (patterns : list string)
    (roots : list Path) : bool :=
  match patterns with
  | [] => false
  | _ =>
      let s_abs := str path in
      let base := name path in
      if match_any patterns base || match_any patterns s_abs then true
      else match_under_roots path patterns roots
  end.

(** *** [hash_file] *)
(** The [while True] loop: [fed] is what [h.update] has received; an
    empty chunk ends the loop as the end of the file does. *)
Fixpoint read_loop (fed : list Byte.byte) (f : read_stream)
  : result (list Byte.byte) :=
  match f with
  | EOF => ret fed
  | Chunk [] _ => ret fed
  | Chunk chunk rest => read_loop (fed ++ chunk) rest
  | ReadError e => raise (OSError e)
  end.

Definition hash_file (filepath : Path) (algorithm : string) : result string :=
  match algorithms env algorithm with
  | None => raise (ValueError ("Unsupported hash algorithm: " +:+ algorithm))
  | Some digest =>
      match fs_open env (str filepath) with
      | inl e => raise (OSError e)
      | inr f =>
          let* fed := read_loop [] f in
          match digest fed with
          | Some hex => ret hex
          | None => raise TypeError
          end
      end
  end.

(** *** [FileInfo.from_path] *)
Definition stat (p : Path) : result stat_result :=
  match fs_stat env (str p) with
  | inl e => raise (OSError e)
  | inr st => ret st
  end.

Definition from_path (p : Path) (algorithm : string) (track_perms : bool)
  : result FileInfo.t :=
  let* st := stat p in
  let* file_hash := hash_file p algorithm in
  let mode := if track_perms then Some (S_IMODE (st_mode st)) else None in
  ret (FileInfo.mk file_hash (st_size st) (st_mtime st) mode).

(** *** [iter_files] *)

(** [path.is_file()] on a resolved path. *)
Definition is_file (p : Path) : os_error + bool :=
  match fs_lookup (root_dir env) (names p) with
  | Some (Leaf probe) => probe
  | Some (Node _ _ _) => inr false
  | None => inr false
  end.

Definition os_walk (keep : string → bool) (followlinks : bool) (top : Path)
  : list (Path * list string * list string) :=
  match fs_lookup (root_dir env) (names top) with
  | Some t => walk_tree keep followlinks top t
  | None => []
  end.

(** The loop over [filenames] in one visited directory. *)
Definition files_in (excludes : list string) (roots : list Path)
    (ignore_hidden : bool) (dpath : Path) (filenames : list string)
  : list Path :=
  flat_map
    (fun fname =>
       let fpath := truediv dpath fname in
       if ignore_hidden && _is_hidden fpath then []
       else if _should_exclude fpath excludes roots then []
       else match is_file fpath with
            | inr true => [fpath]
            | inr false => []
            | inl _ => []
            end)
    filenames.

(** The loop over the walk of one directory root: each directory that
    [os.walk] lists, after the edit of [dirnames] that prunes the walk,
    with the files yielded from it. *)
Definition walk_steps (excludes : list string) (roots : list Path)
    (follow_symlinks ignore_hidden : bool) (root : Path) : list step :=
  map
    (fun visit =>
       Listing visit.1.1
         (files_in excludes roots ignore_hidden visit.1.1 visit.2))
    (os_walk (keep_dir ignore_hidden) follow_symlinks root).

(** The loop over the roots; [roots] is the whole list, [todo] what is
    left of it.  A probe of a root that raises ends the generator. *)
Fixpoint iter_steps (excludes : list string) (roots : list Path)
    (follow_symlinks ignore_hidden : bool) (todo : list Path)
  : list step * option exn :=
  match todo with
  | [] => ([], None)
  | root :: rest =>
      match is_file root with
      | inl e => ([], Some (OSError e))
      | inr true =>
          gen_app
            [Probe root
               (if (negb ignore_hidden || negb (_is_hidden root))
                   && negb (_should_exclude root excludes roots)
                then [root] else [])]
            (iter_steps excludes roots follow_symlinks ignore_hidden rest)
      | inr false =>
          gen_app
            (walk_steps excludes roots follow_symlinks ignore_hidden root)
            (iter_steps excludes roots follow_symlinks ignore_hidden rest)
      end
  end.

(** The run of [iter_files]: its steps, and the exception that ends it,
    if one does. *)
Definition iter_files_run (paths : list Path) (excludes : list string)
    (follow_symlinks ignore_hidden : bool) : list step * option exn :=
  let roots := map (resolve env) paths in
  iter_steps excludes roots follow_symlinks ignore_hidden roots.

(** [iter_files] as its consumer sees it: what the run yields. *)
Definition iter_files (paths : list Path) (excludes : list string)
    (follow_symlinks ignore_hidden : bool) : generator Path :=
  let run := iter_files_run paths excludes follow_symlinks ignore_hidden in
  (flat_map yielded_of run.1, run.2).

(** The files that the steps yield, computed without the steps:
    [walk_root] for the walk of one directory root, [iter_roots] for the
    loop over the roots.  They are what [iter_files] gives
    ([iter_files_unfold]) and serve the proofs about the yielded files. *)
Definition walk_root (excludes : list string) (roots : list Path)
    (follow_symlinks ignore_hidden : bool) (root : Path) : list Path :=
  flat_map
    (fun visit => files_in excludes roots ignore_hidden visit.1.1 visit.2)
    (os_walk (keep_dir ignore_hidden) follow_symlinks root).

Fixpoint iter_roots (excludes : list string) (roots : list Path)
    (follow_symlinks ignore_hidden : bool) (todo : list Path)
  : generator Path :=
  match todo with
  | [] => ([], None)
  | root :: rest =>
      match is_file root with
      | inl e => ([], Some (OSError e))
      | inr true =>
          gen_app
            (if (negb ignore_hidden || negb (_is_hidden root))
                && negb (_should_exclude root excludes roots)
             then [root] else [])
            (iter_roots excludes roots follow_symlinks ignore_hidden rest)
      | inr false =>
          gen_app
            (walk_root excludes roots follow_symlinks ignore_hidden root)
            (iter_roots excludes roots follow_symlinks ignore_hidden rest)
      end
  end.

(** *** [build_baseline] *)

(** The body of the loop: an [OSError] skips the file, anything else
    goes up. *)
Definition build_step (algorithm : string) (track_perms : bool)
    (baseline : Baseline) (fpath : Path) : result Baseline :=
  match from_path fpath algorithm track_perms with
  | inr info => ret (<[str fpath := info]> baseline)
  | inl e => if is_OSError e then ret baseline else raise e
  end.

Definition build_baseline (paths : list Path) (excludes : list string)
    (algorithm : string) (follow_symlinks ignore_hidden track_perms : bool)
  : result Baseline :=
  let roots := map (resolve env) paths in
  let files := iter_files roots excludes follow_symlinks ignore_hidden in
  let* baseline := for_each (build_step algorithm track_perms) files.1 ∅ in
  match files.2 with
  | Some e => raise e
  | None => ret baseline
  end.
End Engine.

Arguments iter_files : simpl never.

(** ** The diff engine *)

(** [sorted(keys)] for a set of strings. *)
Definition sorted (keys : gset string) : list string :=
  merge_sort String.le (elements keys).

(** [d[key]]: raises [KeyError] when the key is absent. *)
Definition getitem (d : Baseline) (key : string) : result FileInfo.t :=
  match d !! key with
  | Some v => ret v
  | None => raise (KeyError key)
  end.

(** The metadata test of the [else] branch. *)
Definition meta_drift (strict_mtime : bool) (p c : FileInfo.t) : bool :=
  py_ne (FileInfo.size p) (FileInfo.size c)
  || (strict_mtime && py_ne (FileInfo.mtime p) (FileInfo.mtime c))
  || py_ne (FileInfo.mode p) (FileInfo.mode c).

(** One iteration of the loop over the common keys; the state is the pair
    of lists [modified], [meta_changed]. *)
Definition diff_step (prev curr : Baseline) (strict_mtime : bool)
    (acc : list string * list string) (path : string)
  : result (list string * list string) :=
  let* p := getitem prev path in
  let* c := getitem curr path in
  if py_ne (FileInfo.hash p) (FileInfo.hash c)
  then ret (acc.1 ++ [path], acc.2)
  else if meta_drift strict_mtime p c
       then ret (acc.1, acc.2 ++ [path])
       else ret acc.

Definition diff_states (prev curr : Baseline) (strict_mtime : bool)
  : result DiffResult :=
  let prev_keys := dom prev in
  let curr_keys := dom curr in
  let added := sorted (curr_keys ∖ prev_keys) in
  let removed := sorted (prev_keys ∖ curr_keys) in
  let* acc := for_each (diff_step prev curr strict_mtime)
                       (sorted (prev_keys ∩ curr_keys)) ([], []) in
  ret {| added := added; removed := removed;
         modified := acc.1; meta_changed := acc.2 |}.

(** The strict lexicographic order: a list sorted by it has no repeats. *)
Definition str_lt (a b : string) : Prop := String.le a b ∧ a ≠ b.

(** The two per-key tests of the loop, read off the two baselines. *)
Definition hash_differs (prev curr : Baseline) (key : string) : bool :=
  match prev !! key, curr !! key with
  | Some p, Some c => py_ne (FileInfo.hash p) (FileInfo.hash c)
  | _, _ => false
  end.

Definition only_meta_differs (prev curr : Baseline) (strict_mtime : bool)
    (key : string) : bool :=
  match prev !! key, curr !! key with
  | Some p, Some c =>
      negb (py_ne (FileInfo.hash p) (FileInfo.hash c))
      && meta_drift strict_mtime p c
  | _, _ => false
  end.

(** ** Sample baselines

    Two scans of [/etc/hosts]: the content is the same, the file was
    touched, and between the scans its permission bits went from
    [0o644] to [0o600] (in [sample_curr]) or stayed (in [sample_touched]). *)

Definition mtime_1 : spec_float := S754_finite false 3 0.
Definition mtime_2 : spec_float := S754_finite false 5 0.

Definition sample_prev : Baseline :=
  {[ "/etc/hosts" := FileInfo.mk "9f86d0" 120 mtime_1 (Some 420) ]}.

Definition sample_curr : Baseline :=
  {[ "/etc/hosts" := FileInfo.mk "9f86d0" 120 mtime_2 (Some 384) ]}.

Definition sample_touched : Baseline :=
  {[ "/etc/hosts" := FileInfo.mk "9f86d0" 120 mtime_2 (Some 420) ]}.

(** The gating property in the form that leaves the mode out: equal hash
    and size, different mtime, and membership in [meta_changed] decided by
    [strict_mtime] alone. *)
Definition mtime_alone_decides (prev curr : Baseline) (strict_mtime : bool)
    (k : string) : Prop :=
  ∀ p c r,
    prev !! k = Some p → curr !! k = Some c →
    FileInfo.hash p = FileInfo.hash c →
    FileInfo.size p = FileInfo.size c →
    SFeqb (FileInfo.mtime p) (FileInfo.mtime c) = false →
    diff_states prev curr strict_mtime = inr r →
    (k ∈ meta_changed r ↔ strict_mtime = true).

(** The exception of [hash_file] on an algorithm that [hashlib] lacks. *)
Definition unsupported (algorithm : string) : exn :=
  ValueError ("Unsupported hash algorithm: " +:+ algorithm).

(** ** Well-formed trees *)

(** Every name in every listing is a valid component. *)
Fixpoint wf_tree (t : tree) : bool :=
  match t with
  | Leaf _ => true
  | Node _ _ entries =>
      forallb (fun e => match e with (n, sub) => valid_name n && wf_tree sub end)
              entries
  end.


(** ** A sample environment

    A matcher for patterns made of plain characters, [*] and [?]; a
    [hashlib] with one ordinary algorithm, whose digest is the content
    itself, and one extendable-output algorithm; and a small file system:
<<
    /etc/hosts            readable
    /etc/shadow           listed, [open] is refused
    /etc/.git/config      readable, in a hidden directory
    /home/.ssh/id_rsa     readable, in a hidden directory
    /home/notes.txt       listed, gone by the time it is read
>> *)

Fixpoint simple_fnmatch_pat (pat : string) : string → bool :=
  match pat with
  | EmptyString => fun s => bool_decide (s = "")
  | String c pat' =>
      if Ascii.eqb c "*" then
        fix star (s : string) : bool :=
          simple_fnmatch_pat pat' s
          || match s with
             | EmptyString => false
             | String _ s' => star s'
             end
      else if Ascii.eqb c "?" then
        fun s => match s with
                 | EmptyString => false
                 | String _ s' => simple_fnmatch_pat pat' s'
                 end
      else
        fun s => match s with
                 | EmptyString => false
                 | String d s' => Ascii.eqb c d && simple_fnmatch_pat pat' s'
                 end
  end.

Definition simple_fnmatch (s pat : string) : bool := simple_fnmatch_pat pat s.

Definition sample_algorithms (algorithm : string)
  : option (list Byte.byte → option string) :=
  if bool_decide (algorithm = "sha256")
  then Some (fun content => Some (String.string_of_list_byte content))
  else if bool_decide (algorithm = "shake_128")
       then Some (fun _ => None)
       else None.

(** Makes a path absolute and drops the components that are no names. *)
Definition sample_resolve (p : Path) : Path :=
  {| absolute := true; names := List.filter valid_name (names p) |}.

Definition regular : tree := Leaf (inr true).

Definition sample_root : tree :=
  Node false true
    [ ("etc", Node false true
                [ ("hosts", regular);
                  ("shadow", regular);
                  (".git", Node false true [ ("config", regular) ]) ]);
      ("home", Node false true
                 [ (".ssh", Node false true [ ("id_rsa", regular) ]);
                   ("notes.txt", regular) ]) ].

Definition hosts_stat : stat_result :=
  {| st_mode := 33188; st_size := 9; st_mtime := mtime_1 |}.

Definition sample_stat (key : string) : os_error + stat_result :=
  if bool_decide (key = "/home/notes.txt") then inl FileNotFoundError
  else inr hosts_stat.

Definition sample_open (key : string) : os_error + read_stream :=
  if bool_decide (key = "/etc/shadow") then inl PermissionError
  else if bool_decide (key = "/home/notes.txt") then inl FileNotFoundError
  else inr (Chunk (String.list_byte_of_string "127.0.0.1") EOF).

Definition sample_env : Env :=
  {| fnmatch := simple_fnmatch;
     algorithms := sample_algorithms;
     resolve := sample_resolve;
     root_dir := sample_root;
     fs_stat := sample_stat;
     fs_open := sample_open |}.

Definition etc : Path := mkPath true ["etc"].
Definition home : Path := mkPath true ["home"].
Definition id_rsa : Path := mkPath true ["home"; ".ssh"; "id_rsa"].
Definition hosts : Path := mkPath true ["etc"; "hosts"].
Definition shadow : Path := mkPath true ["etc"; "shadow"].
Definition notes : Path := mkPath true ["home"; "notes.txt"].

(** ** The rest of the module and its callers *)

(** Whether a float is a NaN, the one value that [!=] tells from itself. *)
Definition is_nan (f : spec_float) : bool :=
  match f with
  | S754_nan => true
  | _ => false
  end.

(** The bytes that the [read] calls on a stream deliver before the loop of
    [hash_file] ends, or the error of the read that fails. *)
Fixpoint stream_data (f : read_stream) : os_error + list Byte.byte :=
  match f with
  | EOF => inr []
  | Chunk [] _ => inr []
  | Chunk chunk rest =>
      match stream_data rest with
      | inl e => inl e
      | inr data => inr (chunk ++ data)
      end
  | ReadError e => inl e
  end.

(** The path that a sequence of names leads to from a directory. *)
Definition under (top : Path) (below : list string) : Path :=
  {| absolute := absolute top; names := names top ++ below |}.

(** [reach keep followlinks t below target]: from the directory [t] the
    names [below] lead to [target], through listings that [scandir] gives,
    by names that pass the consumer's test, and through no symbolic link
    unless links are followed. *)
Inductive reach (keep : string → bool) (followlinks : bool)
  : tree → list string → tree → Prop :=
| reach_here (t : tree) : reach keep followlinks t [] t
| reach_step (is_link is_link' ok' : bool) (entries sub : list (string * tree))
    (d : string) (below : list string) (target : tree) :
    (d, Node is_link' ok' sub) ∈ entries →
    keep d = true →
    followlinks || negb is_link' = true →
    reach keep followlinks (Node is_link' ok' sub) below target →
    reach keep followlinks (Node is_link true entries) (d :: below) target.

(** The stream of a file that is read in the given chunks. *)
Fixpoint stream_of_chunks (chunks : list (list Byte.byte)) : read_stream :=
  match chunks with
  | [] => EOF
  | chunk :: rest => Chunk chunk (stream_of_chunks rest)
  end.

(** A tree with a symbolic link to a directory: [/srv/current] points to
    a directory that holds [app.conf]. *)
Definition linked_root : tree :=
  Node false true
    [ ("srv", Node false true
                [ ("current", Node true true [ ("app.conf", regular) ]);
                  ("readme", regular) ]) ].

(** *** [load_config] *)

(** What [json.load] returns. *)
#[warnings="-register-all"]
Inductive json : Type :=
| JNull
| JBool (b : bool)
| JInt (n : Z)
| JFloat (f : spec_float)
| JStr (s : string)
| JList (items : list json)
| JDict (members : gmap string json).

(** [d.setdefault(key, value)], for its effect on [d]. *)
Definition setdefault (key : string) (value : json) (d : gmap string json)
  : gmap string json :=
  match d !! key with
  | Some _ => d
  | None => <[key := value]> d
  end.

(** What [load_config] can raise: what [open] and [json.load] raise, or
    the [AttributeError] of [setdefault] on a value that is no dict. *)
Inductive config_exn : Type :=
| Raised (e : exn)
| AttributeError.

(** [load_config], given what [open] and [json.load] make of the file. *)
Definition load_config (loaded : result json)
  : config_exn + gmap string json :=
  match loaded with
  | inl e => inl (Raised e)
  | inr (JDict cfg) =>
      let cfg := setdefault "paths" (JList [JStr "./"]) cfg in
      let cfg := setdefault "excludes" (JList []) cfg in
      let cfg := setdefault "algorithm" (JStr "sha256") cfg in
      let cfg := setdefault "follow_symlinks" (JBool false) cfg in
      let cfg := setdefault "ignore_hidden" (JBool true) cfg in
      inr cfg
  | inr _ => inl AttributeError
  end.

(** The table of the defaults. *)
Definition config_defaults : gmap string json :=
  list_to_map
    [ ("paths", JList [JStr "./"]);
      ("excludes", JList []);
      ("algorithm", JStr "sha256");
      ("follow_symlinks", JBool false);
      ("ignore_hidden", JBool true) ].

(** *** The command line *)

(** The truth value of a list. *)
Definition truthy {A} (l : list A) : bool :=
  match l with
  | [] => false
  | _ :: _ => true
  end.

(** [any(result[k] for k in ("added", "removed", "modified",
    "meta_changed"))], which is [any(result.values())] as well. *)
Definition any_changed (r : DiffResult) : bool :=
  truthy (added r) || truthy (removed r) || truthy (modified r)
  || truthy (meta_changed r).

Definition _exit_code (r : DiffResult) : Z :=
  if any_changed r then 2 else 0.

(** One turn of the loop of the [watch] command, from the scan on: the
    report printed, if any, and the baseline kept in memory for the next
    turn. *)
Definition watch_turn (prev curr : Baseline) (strict_mtime : bool)
  : result (option DiffResult * Baseline) :=
  let* r := diff_states prev curr strict_mtime in
  if any_changed r then ret (Some r, curr) else ret (None, prev).

(** Two baselines between which [diff_states] has nothing to tell: the
    same keys, and at each key the same hash and no metadata drift. *)
Definition unchanged (prev curr : Baseline) (strict_mtime : bool) : Prop :=
  dom prev = dom curr
  ∧ ∀ k p c, prev !! k = Some p → curr !! k = Some c →
             FileInfo.hash p = FileInfo.hash c
             ∧ meta_drift strict_mtime p c = false.

(** The shape of a yielded path: a file root, or a file that the walk of a
    directory root meets. *)
Definition yielded_from (env : Env) (excludes : list string) (roots : list Path)
    (follow_symlinks ignore_hidden : bool) (todo : list Path) (p : Path)
  : Prop :=
  ignore_hidden && _is_hidden p = false
  ∧ _should_exclude env p excludes roots = false
  ∧ is_file env p = inr true
  ∧ (p ∈ todo
     ∨ ∃ root t below is_link entries f,
         root ∈ todo
         ∧ fs_lookup (root_dir env) (names root) = Some t
         ∧ reach (keep_dir ignore_hidden) follow_symlinks t below
             (Node is_link true entries)
         ∧ f ∈ filenames_of entries
         ∧ p = under root (below ++ [f])).

(** The sample file system with [linked_root] for its tree. *)
Definition linked_env : Env :=
  {| fnmatch := simple_fnmatch;
     algorithms := sample_algorithms;
     resolve := sample_resolve;
     root_dir := linked_root;
     fs_stat := sample_stat;
     fs_open := sample_open |}.

(** What [build_baseline] makes of [/etc] and [/home] in the sample
    environment, with the given mode for the one file it can read. *)
Definition sample_built (mode : option Z) : Baseline :=
  {[ "/etc/hosts" := FileInfo.mk "127.0.0.1" 9 mtime_1 mode ]}.

(** A directory root under a dot-named directory:
<<
    /home/.config/app/settings.ini
    /home/.config/app/cache/blob
>> *)
Definition config_root : tree :=
  Node false true
    [ ("home", Node false true
        [ (".config", Node false true
            [ ("app", Node false true
                [ ("settings.ini", regular);
                  ("cache", Node false true [ ("blob", regular) ]) ]) ]) ]) ].

Definition config_env : Env :=
  {| fnmatch := simple_fnmatch;
     algorithms := sample_algorithms;
     resolve := sample_resolve;
     root_dir := config_root;
     fs_stat := sample_stat;
     fs_open := sample_open |}.

Definition app : Path := mkPath true ["home"; ".config"; "app"].
Definition app_cache : Path := mkPath true ["home"; ".config"; "app"; "cache"].

(** A file root in a directory that cannot be searched: the probe of
    [/locked/f.txt] raises [PermissionError]. *)
Definition locked_root : tree :=
  Node false true
    [ ("etc", Node false true [ ("hosts", regular); ("shadow", regular) ]);
      ("locked", Node false false [ ("f.txt", Leaf (inl PermissionError)) ]) ].

Definition locked_env : Env :=
  {| fnmatch := simple_fnmatch;
     algorithms := sample_algorithms;
     resolve := sample_resolve;
     root_dir := locked_root;
     fs_stat := sample_stat;
     fs_open := sample_open |}.

Definition locked_file : Path := mkPath true ["locked"; "f.txt"].

(** The pruning property in the form that knows no exception for the
    roots: with [ignore_hidden] on, no directory that the run lists below
    a root is hidden, so that nothing is left to filter after the walk. *)
Definition never_lists_hidden (env : Env) (paths : list Path)
    (excludes : list string) (follow_symlinks : bool) : Prop :=
  ∀ d ys,
    Listing d ys ∈ (iter_files_run env paths excludes follow_symlinks true).1 →
    d ∉ map (resolve env) paths →
    _is_hidden d = false.


(* ================================================================= *)
(** * Properties *)

(** ** Python's [!=] *)

Lemma py_ne_str (a b : string) : py_ne a b = true ↔ a ≠ b.
Proof.
  unfold py_ne, py_eq, str_PyEq. rewrite negb_true_iff, bool_decide_eq_false.
  done.
Qed.

Lemma py_ne_int (a b : Z) : py_ne a b = true ↔ a ≠ b.
Proof.
  unfold py_ne, py_eq, int_PyEq. rewrite negb_true_iff. apply Z.eqb_neq.
Qed.

Lemma py_ne_optional_int (a b : option Z) : py_ne a b = true ↔ a ≠ b.
Proof.
  unfold py_ne, py_eq, optional_PyEq. rewrite negb_true_iff.
  destruct a as [x|], b as [y|]; simpl; try (split; congruence).
  change (py_eq x y) with (Z.eqb x y). rewrite Z.eqb_neq.
  split; congruence.
Qed.

Lemma py_ne_float (a b : spec_float) : py_ne a b = true ↔ SFeqb a b = false.
Proof. unfold py_ne, py_eq, float_PyEq. apply negb_true_iff. Qed.

#[global] Instance str_PyEqSym : PyEqSym string.
Proof.
  intros a b. unfold py_eq, str_PyEq. apply bool_decide_ext. split; congruence.
Qed.

#[global] Instance int_PyEqSym : PyEqSym Z.
Proof. intros a b. apply Z.eqb_sym. Qed.

Lemma SFcompare_Eq_sym (a b : spec_float) :
  SFcompare a b = Some Eq → SFcompare b a = Some Eq.
Proof.
  destruct a as [sa|sa| |sa ma ea], b as [sb|sb| |sb mb eb]; simpl;
    try done; try (destruct sa, sb; done); try (destruct sa; done);
    try (destruct sb; done).
  change (Pos.compare_cont Eq ma mb) with (Pos.compare ma mb).
  change (Pos.compare_cont Eq mb ma) with (Pos.compare mb ma).
  intros Hab.
  assert (ea = eb ∧ ma = mb) as [-> ->].
  { destruct sa, sb; try done;
      destruct (Z.compare_spec ea eb); try done;
      destruct (Pos.compare_spec ma mb); done. }
  destruct sa, sb; try done; by rewrite Z.compare_refl, Pos.compare_refl.
Qed.

#[global] Instance float_PyEqSym : PyEqSym spec_float.
Proof.
  intros a b. unfold py_eq, float_PyEq, SFeqb.
  destruct (SFcompare a b) as [[]|] eqn:Hab.
  - by rewrite (SFcompare_Eq_sym _ _ Hab).
  - destruct (SFcompare b a) as [[]|] eqn:Hba; try done.
    apply SFcompare_Eq_sym in Hba. congruence.
  - destruct (SFcompare b a) as [[]|] eqn:Hba; try done.
    apply SFcompare_Eq_sym in Hba. congruence.
  - destruct (SFcompare b a) as [[]|] eqn:Hba; try done.
    apply SFcompare_Eq_sym in Hba. congruence.
Qed.

#[global] Instance optional_PyEqSym {A} `{PyEqSym A} : PyEqSym (option A).
Proof. intros [x|] [y|]; try done. exact (py_eq_sym x y). Qed.

Lemma py_ne_sym {A} `{PyEqSym A} (a b : A) : py_ne a b = py_ne b a.
Proof. unfold py_ne. by rewrite py_eq_sym. Qed.

(** ** [sorted] *)

Lemma elem_of_sorted (keys : gset string) (k : string) :
  k ∈ sorted keys ↔ k ∈ keys.
Proof. unfold sorted. rewrite merge_sort_Permutation. apply elem_of_elements. Qed.

Lemma NoDup_sorted (keys : gset string) : NoDup (sorted keys).
Proof. unfold sorted. rewrite merge_sort_Permutation. apply NoDup_elements. Qed.

Lemma StronglySorted_le_lt (l : list string) :
  StronglySorted String.le l → NoDup l → StronglySorted str_lt l.
Proof.
  induction 1 as [|x l Hl IH Hx]; intros Hnd; constructor.
  - apply IH. by apply NoDup_cons in Hnd as [_ ?].
  - apply NoDup_cons in Hnd as [Hnotin _].
    apply Forall_forall. intros y Hy. split.
    + by eapply Forall_forall in Hx.
    + intros ->. done.
Qed.

Lemma sorted_strictly (keys : gset string) : StronglySorted str_lt (sorted keys).
Proof.
  apply StronglySorted_le_lt; [|apply NoDup_sorted].
  unfold sorted. apply (StronglySorted_merge_sort String.le).
Qed.

Lemma StronglySorted_lt_NoDup (l : list string) :
  StronglySorted str_lt l → NoDup l.
Proof.
  induction 1 as [|x l Hl IH Hx]; constructor; [|done].
  intros Hin. eapply Forall_forall in Hx; [|done]. by destruct Hx.
Qed.

Lemma StronglySorted_filter {A} (R : relation A) (f : A → bool) (l : list A) :
  StronglySorted R l → StronglySorted R (List.filter f l).
Proof.
  induction 1 as [|x l Hl IH Hx]; simpl; [constructor|].
  destruct (f x); [|done]. constructor; [done|].
  apply Forall_forall. intros y Hy.
  apply list_elem_of_In, filter_In in Hy as [Hy _].
  eapply Forall_forall in Hx; [done|]. by apply list_elem_of_In.
Qed.

Lemma elem_of_filter_bool {A} (f : A → bool) (l : list A) (x : A) :
  x ∈ List.filter f l ↔ x ∈ l ∧ f x = true.
Proof. rewrite !list_elem_of_In. apply filter_In. Qed.

(** ** The loop of [diff_states] *)

(** On keys that both baselines hold no lookup raises, and the loop
    appends to each list the keys its test selects, in the order met. *)
Lemma diff_loop (prev curr : Baseline) (strict_mtime : bool)
    (keys m mc : list string) :
  (∀ k, k ∈ keys → k ∈ dom prev ∧ k ∈ dom curr) →
  for_each (diff_step prev curr strict_mtime) keys (m, mc) =
  inr (m ++ List.filter (hash_differs prev curr) keys,
       mc ++ List.filter (only_meta_differs prev curr strict_mtime) keys).
Proof.
  revert m mc. induction keys as [|k keys IH]; intros m mc Hkeys; simpl.
  { by rewrite !app_nil_r. }
  destruct (Hkeys k) as [[p Hp]%elem_of_dom [c Hc]%elem_of_dom]; [left|].
  assert (∀ k', k' ∈ keys → k' ∈ dom prev ∧ k' ∈ dom curr) as Hrest.
  { intros k' Hk'. apply Hkeys. by right. }
  unfold diff_step at 1, getitem, hash_differs, only_meta_differs.
  rewrite Hp, Hc. simpl.
  destruct (py_ne (FileInfo.hash p) (FileInfo.hash c)); simpl.
  - rewrite IH by done. by rewrite <- !app_assoc.
  - destruct (meta_drift strict_mtime p c); simpl.
    + rewrite IH by done. by rewrite <- !app_assoc.
    + by rewrite IH.
Qed.

(** [diff_states] never raises; its four lists in closed form. *)
Lemma diff_states_eq (prev curr : Baseline) (strict_mtime : bool) :
  diff_states prev curr strict_mtime =
  inr {| added := sorted (dom curr ∖ dom prev);
         removed := sorted (dom prev ∖ dom curr);
         modified := List.filter (hash_differs prev curr)
                       (sorted (dom prev ∩ dom curr));
         meta_changed :=
           List.filter (only_meta_differs prev curr strict_mtime)
             (sorted (dom prev ∩ dom curr)) |}.
Proof.
  unfold diff_states. rewrite diff_loop; [done|].
  intros k Hk%elem_of_sorted. set_solver.
Qed.

Lemma hash_differs_spec (prev curr : Baseline) (k : string) :
  hash_differs prev curr k = true ↔
  ∃ p c, prev !! k = Some p ∧ curr !! k = Some c ∧
         FileInfo.hash p ≠ FileInfo.hash c.
Proof.
  unfold hash_differs. split.
  - destruct (prev !! k) as [p|], (curr !! k) as [c|]; try done.
    intros H%py_ne_str. by exists p, c.
  - intros (p & c & -> & -> & H). by apply py_ne_str.
Qed.

Lemma meta_drift_spec (strict_mtime : bool) (p c : FileInfo.t) :
  meta_drift strict_mtime p c = true ↔
  FileInfo.size p ≠ FileInfo.size c
  ∨ (strict_mtime = true ∧ SFeqb (FileInfo.mtime p) (FileInfo.mtime c) = false)
  ∨ FileInfo.mode p ≠ FileInfo.mode c.
Proof.
  unfold meta_drift.
  rewrite !orb_true_iff, andb_true_iff, py_ne_int, py_ne_float,
    py_ne_optional_int.
  tauto.
Qed.

Lemma only_meta_differs_spec (prev curr : Baseline) (strict_mtime : bool)
    (k : string) :
  only_meta_differs prev curr strict_mtime k = true ↔
  ∃ p c, prev !! k = Some p ∧ curr !! k = Some c ∧
         FileInfo.hash p = FileInfo.hash c ∧
         (FileInfo.size p ≠ FileInfo.size c
          ∨ (strict_mtime = true
             ∧ SFeqb (FileInfo.mtime p) (FileInfo.mtime c) = false)
          ∨ FileInfo.mode p ≠ FileInfo.mode c).
Proof.
  unfold only_meta_differs. split.
  - destruct (prev !! k) as [p|], (curr !! k) as [c|]; try done.
    intros [Hh Hm]%andb_true_iff. exists p, c. repeat split; try done.
    + apply negb_true_iff in Hh.
      destruct (decide (FileInfo.hash p = FileInfo.hash c)) as [|Hne];
        [done|].
      apply py_ne_str in Hne. congruence.
    + by apply meta_drift_spec.
  - intros (p & c & -> & -> & Hh & Hm). apply andb_true_iff. split.
    + apply negb_true_iff, not_true_iff_false. rewrite py_ne_str.
      intros Hne. by apply Hne.
    + by apply meta_drift_spec.
Qed.

Lemma elem_of_common (prev curr : Baseline) (k : string) (p c : FileInfo.t) :
  prev !! k = Some p → curr !! k = Some c →
  k ∈ sorted (dom prev ∩ dom curr).
Proof.
  intros Hp Hc. apply elem_of_sorted, elem_of_intersection.
  split; apply elem_of_dom; eauto.
Qed.

(** C1. [diff_states] returns, never raising: [added], the keys of
    [curr] that [prev] lacks, and [removed], the keys of [prev] that [curr]
    lacks, each in strictly increasing lexicographic order; [modified],
    the common keys whose two [hash] fields differ, and [meta_changed], the
    common keys whose hashes agree and whose sizes differ, or whose mtimes
    differ under [strict_mtime], or whose modes differ (two absent modes
    being equal), each in strictly increasing lexicographic order, the
    order in which the loop meets them. *)
Theorem diff_states_classification (prev curr : Baseline) (strict_mtime : bool) :
  ∃ r, diff_states prev curr strict_mtime = inr r ∧
    (StronglySorted str_lt (added r) ∧
     ∀ k, k ∈ added r ↔ k ∈ dom curr ∧ k ∉ dom prev) ∧
    (StronglySorted str_lt (removed r) ∧
     ∀ k, k ∈ removed r ↔ k ∈ dom prev ∧ k ∉ dom curr) ∧
    (StronglySorted str_lt (modified r) ∧
     ∀ k, k ∈ modified r ↔
       ∃ p c, prev !! k = Some p ∧ curr !! k = Some c ∧
              FileInfo.hash p ≠ FileInfo.hash c) ∧
    (StronglySorted str_lt (meta_changed r) ∧
     ∀ k, k ∈ meta_changed r ↔
       ∃ p c, prev !! k = Some p ∧ curr !! k = Some c ∧
              FileInfo.hash p = FileInfo.hash c ∧
              (FileInfo.size p ≠ FileInfo.size c
               ∨ (strict_mtime = true
                  ∧ SFeqb (FileInfo.mtime p) (FileInfo.mtime c) = false)
               ∨ FileInfo.mode p ≠ FileInfo.mode c)).
Proof.
  eexists. split; [apply diff_states_eq|]. simpl.
  split; [|split; [|split]]; (split; [|intros k]).
  - apply sorted_strictly.
  - rewrite elem_of_sorted. set_solver.
  - apply sorted_strictly.
  - rewrite elem_of_sorted. set_solver.
  - apply StronglySorted_filter, sorted_strictly.
  - rewrite elem_of_filter_bool, hash_differs_spec. split; [tauto|].
    intros (p & c & Hp & Hc & Hh). split; [by eapply elem_of_common|eauto].
  - apply StronglySorted_filter, sorted_strictly.
  - rewrite elem_of_filter_bool, only_meta_differs_spec. split; [tauto|].
    intros (p & c & Hp & Hc & Hh). split; [by eapply elem_of_common|eauto].
Qed.

(** C3. The four lists of [diff_states] put together hold no path twice:
    no path is in two of them and none repeats within one; and a path that
    both baselines hold with equal hash, size and mode, and with equal
    mtime or [strict_mtime] off, is in none of the four. *)
Theorem diff_states_partition (prev curr : Baseline) (strict_mtime : bool) :
  ∃ r, diff_states prev curr strict_mtime = inr r ∧
    NoDup (added r ++ removed r ++ modified r ++ meta_changed r) ∧
    ∀ k p c,
      prev !! k = Some p → curr !! k = Some c →
      FileInfo.hash p = FileInfo.hash c →
      FileInfo.size p = FileInfo.size c →
      (strict_mtime = false
       ∨ SFeqb (FileInfo.mtime p) (FileInfo.mtime c) = true) →
      FileInfo.mode p = FileInfo.mode c →
      k ∉ added r ++ removed r ++ modified r ++ meta_changed r.
Proof.
  eexists. split; [apply diff_states_eq|]. simpl. split.
  - repeat (apply NoDup_app; split; [|split]);
      try apply NoDup_sorted;
      try (apply StronglySorted_lt_NoDup, StronglySorted_filter,
             sorted_strictly).
    + intros k [Hc Hp]%elem_of_sorted%elem_of_difference.
      rewrite !elem_of_app, !elem_of_filter_bool, !elem_of_sorted,
        elem_of_difference, elem_of_intersection.
      tauto.
    + intros k [Hp Hc]%elem_of_sorted%elem_of_difference.
      rewrite !elem_of_app, !elem_of_filter_bool, !elem_of_sorted,
        elem_of_intersection.
      tauto.
    + intros k [_ Hk]%elem_of_filter_bool [_ Hk']%elem_of_filter_bool.
      apply hash_differs_spec in Hk as (p & c & Hp & Hc & Hne).
      apply only_meta_differs_spec in Hk' as (p' & c' & Hp' & Hc' & He & _).
      congruence.
  - intros k p c Hp Hc Hh Hs Hm Hmo.
    rewrite !elem_of_app, !elem_of_filter_bool, !elem_of_sorted,
      !elem_of_difference, hash_differs_spec, only_meta_differs_spec.
    assert (k ∈ dom prev) by (apply elem_of_dom; eauto).
    assert (k ∈ dom curr) by (apply elem_of_dom; eauto).
    intros [Ha|[Hr|[[_ Hx]|[_ Hx]]]]; [tauto|tauto| |].
    + destruct Hx as (p' & c' & Hp' & Hc' & Hne). congruence.
    + destruct Hx as (p' & c' & Hp' & Hc' & _ & Hd).
      assert (p' = p) as -> by congruence.
      assert (c' = c) as -> by congruence.
      destruct Hd as [?|[[-> ?]|?]]; try done.
      destruct Hm; congruence.
Qed.

(** C4, as stated, fails: [/etc/hosts] keeps hash and size, its mtime
    changes, and with [strict_mtime] off it is in [meta_changed] all the
    same, because its mode changed too. *)
Lemma mtime_alone_decides_fails :
  ¬ mtime_alone_decides sample_prev sample_curr false "/etc/hosts".
Proof.
  intros H.
  specialize (H (FileInfo.mk "9f86d0" 120 mtime_1 (Some 420))
                (FileInfo.mk "9f86d0" 120 mtime_2 (Some 384))
                (mkDiff [] [] [] ["/etc/hosts"])).
  assert ("/etc/hosts" ∈ ["/etc/hosts"] ↔ false = true) as [Hin _].
  { apply H; reflexivity. }
  discriminate Hin. left.
Qed.

(** C4, amended. For a path that both baselines hold with equal hash,
    equal size and equal mode but different mtime, [diff_states] puts the
    path in [meta_changed] exactly when [strict_mtime] is on. *)
Theorem strict_mtime_gating (prev curr : Baseline) (strict_mtime : bool)
    (k : string) (p c : FileInfo.t) :
  prev !! k = Some p → curr !! k = Some c →
  FileInfo.hash p = FileInfo.hash c →
  FileInfo.size p = FileInfo.size c →
  FileInfo.mode p = FileInfo.mode c →
  SFeqb (FileInfo.mtime p) (FileInfo.mtime c) = false →
  ∃ r, diff_states prev curr strict_mtime = inr r ∧
       (k ∈ meta_changed r ↔ strict_mtime = true).
Proof.
  intros Hp Hc Hh Hs Hmo Hmt.
  eexists. split; [apply diff_states_eq|]. simpl.
  rewrite elem_of_filter_bool, only_meta_differs_spec. split.
  - intros [_ (p' & c' & Hp' & Hc' & _ & Hd)].
    assert (p' = p) as -> by congruence.
    assert (c' = c) as -> by congruence.
    destruct Hd as [?|[[? ?]|?]]; done.
  - intros ->. split; [by eapply elem_of_common|].
    exists p, c. eauto 10.
Qed.

Lemma strict_mtime_gating_witness :
  ∃ r, diff_states sample_prev sample_touched true = inr r ∧
       ("/etc/hosts" ∈ meta_changed r ↔ true = true).
Proof.
  apply (strict_mtime_gating sample_prev sample_touched true "/etc/hosts"
           (FileInfo.mk "9f86d0" 120 mtime_1 (Some 420))
           (FileInfo.mk "9f86d0" 120 mtime_2 (Some 420)));
    reflexivity.
Defined.

(** C8. What [diff_states] reports as added from [A] to [B] is what it
    reports as removed from [B] to [A], and the other way round. *)
Theorem diff_states_added_removed_swap (A B : Baseline) (strict_mtime : bool) :
  ∃ rAB rBA,
    diff_states A B strict_mtime = inr rAB ∧
    diff_states B A strict_mtime = inr rBA ∧
    added rAB = removed rBA ∧ removed rAB = added rBA.
Proof.
  do 2 eexists. split; [apply diff_states_eq|].
  split; [apply diff_states_eq|]. done.
Qed.

Lemma hash_differs_sym (A B : Baseline) (k : string) :
  hash_differs A B k = hash_differs B A k.
Proof.
  unfold hash_differs.
  destruct (A !! k) as [a|], (B !! k) as [b|]; try done. apply py_ne_sym.
Qed.

Lemma meta_drift_sym (strict_mtime : bool) (a b : FileInfo.t) :
  meta_drift strict_mtime a b = meta_drift strict_mtime b a.
Proof.
  unfold meta_drift.
  by rewrite (py_ne_sym (FileInfo.size a)), (py_ne_sym (FileInfo.mtime a)),
    (py_ne_sym (FileInfo.mode a)).
Qed.

Lemma only_meta_differs_sym (A B : Baseline) (strict_mtime : bool) (k : string) :
  only_meta_differs A B strict_mtime k = only_meta_differs B A strict_mtime k.
Proof.
  unfold only_meta_differs.
  destruct (A !! k) as [a|], (B !! k) as [b|]; try done.
  by rewrite (py_ne_sym (FileInfo.hash a)), meta_drift_sym.
Qed.

(** C10. [modified] and [meta_changed] do not depend on which baseline
    is taken as the previous one: each per-key test is symmetric in the two
    records. *)
Theorem diff_states_changed_swap (A B : Baseline) (strict_mtime : bool) :
  ∃ rAB rBA,
    diff_states A B strict_mtime = inr rAB ∧
    diff_states B A strict_mtime = inr rBA ∧
    modified rAB = modified rBA ∧ meta_changed rAB = meta_changed rBA.
Proof.
  do 2 eexists. split; [apply diff_states_eq|].
  split; [apply diff_states_eq|]. simpl.
  rewrite (comm_L (∩) (dom A) (dom B)).
  split; apply filter_ext; intros k.
  - apply hash_differs_sym.
  - apply only_meta_differs_sym.
Qed.

(** ** The exclusion matcher *)

Section ExclusionProperties.
Context (env : Env).

Lemma match_any_spec (patterns : list string) (s : string) :
  match_any env patterns s = true ↔
  ∃ pat, pat ∈ patterns ∧ fnmatch env s pat = true.
Proof.
  unfold match_any. rewrite existsb_exists.
  by setoid_rewrite list_elem_of_In.
Qed.

(** [relative_to] succeeds exactly on the paths that lie under the root,
    and gives what follows the root. *)
Lemma relative_to_spec (p root rel : Path) :
  relative_to p root = Some rel ↔
  absolute p = absolute root ∧
  ∃ below, names p = names root ++ below ∧
           rel = {| absolute := false; names := below |}.
Proof.
  unfold relative_to. split.
  - destruct (bool_decide _) eqn:Ha; [|done].
    destruct (bool_decide (_ `prefix_of` _)) eqn:Hn; [|done]. simpl.
    apply bool_decide_eq_true in Ha, Hn. destruct Hn as [below Hn].
    intros [= <-]. split; [done|]. exists below. split; [done|].
    by rewrite Hn, drop_app_length.
  - intros [Ha (below & Hn & ->)].
    rewrite (bool_decide_eq_true_2 _ Ha).
    rewrite bool_decide_eq_true_2 by by exists below.
    simpl. by rewrite Hn, drop_app_length.
Qed.

Lemma match_under_roots_spec (path : Path) (patterns : list string)
    (roots : list Path) :
  match_under_roots env path patterns roots = true ↔
  ∃ root rel, root ∈ roots ∧ relative_to path root = Some rel ∧
              match_any env patterns (str rel) = true.
Proof.
  induction roots as [|root roots IH]; simpl.
  { split; [done|]. by intros (? & ? & ?%elem_of_nil & _). }
  destruct (relative_to path root) as [rel|] eqn:Hrel.
  - destruct (match_any env patterns (str rel)) eqn:Hm.
    + split; [|done]. intros _. exists root, rel. by rewrite elem_of_cons; auto.
    + rewrite IH. split.
      * intros (r & rl & ? & ? & ?). exists r, rl. by rewrite elem_of_cons; auto.
      * intros (r & rl & [->|?]%elem_of_cons & Hr & Hm'); [congruence|eauto].
  - rewrite IH. split.
    + intros (r & rl & ? & ? & ?). exists r, rl. by rewrite elem_of_cons; auto.
    + intros (r & rl & [->|?]%elem_of_cons & Hr & Hm'); [congruence|eauto].
Qed.

(** C5. [_should_exclude] answers true exactly when some pattern
    matches the path string, or the base name, or what follows some root
    in the path, for a root that the path lies under; with no pattern it
    answers false. *)
Theorem should_exclude_iff (path : Path) (patterns : list string)
    (roots : list Path) :
  (_should_exclude env path patterns roots = true ↔
   ∃ pat, pat ∈ patterns ∧
     (fnmatch env (str path) pat = true
      ∨ fnmatch env (name path) pat = true
      ∨ ∃ root below,
          root ∈ roots ∧ absolute path = absolute root ∧
          names path = names root ++ below ∧
          fnmatch env (str {| absolute := false; names := below |}) pat
          = true))
  ∧ _should_exclude env path [] roots = false.
Proof.
  split; [|done].
  assert (_should_exclude env path patterns roots
          = match_any env patterns (name path)
            || match_any env patterns (str path)
            || match_under_roots env path patterns roots) as ->.
  { unfold _should_exclude. destruct patterns as [|pat pats].
    - simpl. induction roots as [|root roots IH]; simpl; [done|].
      by destruct (relative_to path root).
    - by destruct (match_any env (pat :: pats) (name path)
                   || match_any env (pat :: pats) (str path)). }
  rewrite !orb_true_iff, match_under_roots_spec, !match_any_spec. split.
  - intros [[(pat & ? & ?)|(pat & ? & ?)]|(root & rel & ? & Hrel & Hm)];
      [exists pat; auto..|].
    apply match_any_spec in Hm as (pat & ? & ?).
    apply relative_to_spec in Hrel as (? & below & ? & ->).
    exists pat. split; [done|]. right; right. by exists root, below.
  - intros (pat & Hpat & [?|[?|(root & below & ? & ? & ? & ?)]]);
      [left; right; eauto|left; left; eauto|].
    right. exists root, {| absolute := false; names := below |}.
    split; [done|]. split.
    + apply relative_to_spec. eauto.
    + apply match_any_spec. eauto.
Qed.
End ExclusionProperties.

(** ** Path strings and their segments *)

Lemma split_on_plain (sep : ascii) (s : string) :
  has_char sep s = false → split_on sep s = [s].
Proof.
  induction s as [|c s IH]; simpl; [done|].
  intros [Hc Hs]%orb_false_iff. by rewrite Hc, IH.
Qed.

Lemma split_on_app (sep : ascii) (s rest : string) :
  has_char sep s = false →
  split_on sep (s +:+ String sep rest) = s :: split_on sep rest.
Proof.
  induction s as [|c s IH]; simpl.
  - intros _. by rewrite Ascii.eqb_refl.
  - intros [Hc Hs]%orb_false_iff. by rewrite Hc, IH.
Qed.

Lemma valid_name_plain (n : string) :
  valid_name n = true → has_char "/" n = false.
Proof. unfold valid_name. by intros [_ ?%negb_true_iff]%andb_true_iff. Qed.

(** Splitting the joined components gives the components back. *)
Lemma split_on_concat (ns : list string) :
  forallb valid_name ns = true → ns ≠ [] →
  split_on "/" (String.concat "/" ns) = ns.
Proof.
  induction ns as [|n ns IH]; [done|]. simpl.
  intros [Hn Hns]%andb_true_iff _. apply valid_name_plain in Hn.
  destruct ns as [|n' ns'].
  - by apply split_on_plain.
  - change ("/" +:+ ?s) with (String "/" s).
    rewrite split_on_app by done. f_equal. by apply IH.
Qed.

(** On a well-formed path the test on parts and the test on the segments
    of the path string agree. *)
Lemma has_hidden_segment_str (p : Path) :
  wf_path p = true → has_hidden_segment (str p) = _is_hidden p.
Proof.
  destruct p as [[] ns]; unfold wf_path, str, _is_hidden, parts; simpl; [|done].
  intros Hns. unfold has_hidden_segment.
  change ("/" +:+ ?s) with (String "/" s). simpl.
  destruct ns as [|n ns]; [done|].
  by rewrite split_on_concat.
Qed.

(** ** The walk *)

(** Induction on a tree, with the hypothesis for every entry of a listing. *)
Lemma tree_ind_entries (P : tree → Prop) :
  (∀ probe, P (Leaf probe)) →
  (∀ is_link ok entries,
     Forall (λ e, P e.2) entries → P (Node is_link ok entries)) →
  ∀ t, P t.
Proof.
  intros HLeaf HNode. fix IH 1. intros [probe|is_link ok entries].
  - apply HLeaf.
  - apply HNode. induction entries as [|[n sub] entries IHentries].
    + constructor.
    + constructor; [apply IH|apply IHentries].
Qed.

Lemma walk_tree_Node (keep : string → bool) (followlinks : bool) (top : Path)
    (is_link : bool) (entries : list (string * tree)) :
  walk_tree keep followlinks top (Node is_link true entries) =
  (top, dirnames_of entries, filenames_of entries)
  :: flat_map (descend keep followlinks top) entries.
Proof.
  simpl. f_equal.
  induction entries as [|[d sub] entries IH]; [done|].
  rewrite IH. unfold descend at 2. simpl. by destruct sub.
Qed.

Lemma wf_tree_entry (is_link ok : bool) (entries : list (string * tree))
    (e : string * tree) :
  wf_tree (Node is_link ok entries) = true → e ∈ entries →
  valid_name e.1 = true ∧ wf_tree e.2 = true.
Proof.
  simpl. intros Hwf He. rewrite forallb_forall in Hwf.
  apply list_elem_of_In, Hwf in He. destruct e. by apply andb_true_iff.
Qed.

Lemma filenames_of_valid (is_link ok : bool) (entries : list (string * tree)) :
  wf_tree (Node is_link ok entries) = true →
  forallb valid_name (filenames_of entries) = true.
Proof.
  intros Hwf. apply forallb_forall. intros f Hf.
  apply in_flat_map in Hf as (e & He & Hf).
  apply list_elem_of_In in He.
  destruct (wf_tree_entry _ _ _ _ Hwf He) as [Hn _].
  destruct (e.2); simpl in Hf; [|done]. by destruct Hf as [<-|[]].
Qed.

(** Every directory that the walk visits is reached from the top through
    names that passed the consumer's test; in a well-formed tree these
    names, and the file names listed there, are valid components. *)
Lemma walk_tree_visit (keep : string → bool) (followlinks : bool) (t : tree) :
  ∀ (top : Path) (visit : Path * list string * list string),
    visit ∈ walk_tree keep followlinks top t →
    ∃ below,
      visit.1.1 = {| absolute := absolute top; names := names top ++ below |}
      ∧ Forall (λ d, keep d = true) below
      ∧ (wf_tree t = true →
         forallb valid_name below = true
         ∧ forallb valid_name visit.2 = true).
Proof.
  induction t as [probe|is_link ok entries IH] using tree_ind_entries;
    intros top visit Hvisit.
  { by apply elem_of_nil in Hvisit. }
  destruct ok; [|by apply elem_of_nil in Hvisit].
  rewrite walk_tree_Node in Hvisit.
  apply elem_of_cons in Hvisit as [->|Hvisit].
  - exists []. simpl. rewrite app_nil_r. split; [by destruct top|].
    split; [constructor|]. intros Hwf. split; [done|].
    exact (filenames_of_valid is_link true entries Hwf).
  - apply list_elem_of_In, in_flat_map in Hvisit as (e & He & Hvisit).
    apply list_elem_of_In in He, Hvisit.
    rewrite Forall_forall in IH. specialize (IH e He).
    unfold descend in Hvisit.
    destruct (e.2) as [|is_link' ok' sub] eqn:He2;
      [by apply elem_of_nil in Hvisit|].
    destruct (keep e.1 && (followlinks || negb is_link')) eqn:Hkeep;
      [|by apply elem_of_nil in Hvisit].
    apply andb_true_iff in Hkeep as [Hkeep _].
    destruct (IH _ _ Hvisit) as (below & Hpath & Hbelow & Hwf).
    exists (e.1 :: below). simpl in Hpath.
    rewrite <- app_assoc in Hpath. split; [done|].
    split; [by constructor|]. intros Hwft.
    destruct (wf_tree_entry _ _ _ _ Hwft He) as [Hn Hsub].
    rewrite He2 in Hsub. destruct (Hwf Hsub) as [? ?].
    split; [|done]. simpl. by rewrite Hn.
Qed.

Lemma lookup_entry_elem (n : string) (entries : list (string * tree))
    (sub : tree) :
  lookup_entry n entries = Some sub → (n, sub) ∈ entries.
Proof.
  induction entries as [|[n' sub'] entries IH]; simpl; [done|].
  case_bool_decide as Hn.
  - intros [= <-]. simpl in Hn. subst. left.
  - intros ?. right. by apply IH.
Qed.

Lemma fs_lookup_wf (ns : list string) :
  ∀ t sub, wf_tree t = true → fs_lookup t ns = Some sub → wf_tree sub = true.
Proof.
  induction ns as [|n ns IH]; intros t sub Hwf; simpl.
  { by intros [= <-]. }
  destruct t as [|is_link ok entries]; [done|].
  destruct (lookup_entry n entries) as [sub'|] eqn:Hn; [|done].
  apply lookup_entry_elem in Hn.
  destruct (wf_tree_entry _ _ _ _ Hwf Hn) as [_ Hsub]. by apply IH.
Qed.

Lemma wf_path_truediv (d : Path) (f : string) :
  wf_path d = true → valid_name f = true → wf_path (truediv d f) = true.
Proof.
  unfold wf_path, truediv. simpl. intros [-> Hd]%andb_true_iff Hf.
  rewrite forallb_app, Hd. simpl. by rewrite Hf.
Qed.

Lemma keep_dir_hidden (d : string) :
  keep_dir true d = true ↔ startswith d "." = false.
Proof. unfold keep_dir. apply negb_true_iff. Qed.

Section WalkerProperties.
Context (env : Env).

(** The yields of the steps are the yields computed directly. *)
Lemma walk_steps_yields (excludes : list string) (roots : list Path)
    (follow_symlinks ignore_hidden : bool) (root : Path) :
  flat_map yielded_of
    (walk_steps env excludes roots follow_symlinks ignore_hidden root)
  = walk_root env excludes roots follow_symlinks ignore_hidden root.
Proof.
  unfold walk_steps, walk_root.
  induction (os_walk env (keep_dir ignore_hidden) follow_symlinks root)
    as [|visit visits IH]; simpl; [done|].
  by rewrite IH.
Qed.

Lemma iter_steps_yields (excludes : list string) (roots : list Path)
    (follow_symlinks ignore_hidden : bool) (todo : list Path) :
  (flat_map yielded_of
     (iter_steps env excludes roots follow_symlinks ignore_hidden todo).1,
   (iter_steps env excludes roots follow_symlinks ignore_hidden todo).2)
  = iter_roots env excludes roots follow_symlinks ignore_hidden todo.
Proof.
  induction todo as [|root todo IH]; simpl; [done|].
  destruct (is_file env root) as [e|[]]; simpl; [done| |].
  - by rewrite <- IH.
  - rewrite <- IH. simpl. by rewrite flat_map_app, walk_steps_yields.
Qed.

Lemma iter_files_unfold (paths : list Path) (excludes : list string)
    (follow_symlinks ignore_hidden : bool) :
  iter_files env paths excludes follow_symlinks ignore_hidden
  = iter_roots env excludes (map (resolve env) paths) follow_symlinks
      ignore_hidden (map (resolve env) paths).
Proof. unfold iter_files, iter_files_run. apply iter_steps_yields. Qed.

(** The directories that the run lists are those that the pruned walk of
    a root visits. *)
Lemma walk_steps_listing (excludes : list string) (roots : list Path)
    (follow_symlinks ignore_hidden : bool) (root : Path) (s : step) :
  s ∈ walk_steps env excludes roots follow_symlinks ignore_hidden root
  ↔ ∃ visit,
      visit ∈ os_walk env (keep_dir ignore_hidden) follow_symlinks root
      ∧ s = Listing visit.1.1
              (files_in env excludes roots ignore_hidden visit.1.1 visit.2).
Proof.
  unfold walk_steps. rewrite list_elem_of_fmap. split.
  - intros (visit & -> & ?). by exists visit.
  - intros (visit & ? & ->). by exists visit.
Qed.

Lemma iter_steps_listing (excludes : list string) (roots : list Path)
    (follow_symlinks ignore_hidden : bool) (todo : list Path)
    (d : Path) (ys : list Path) :
  Listing d ys
  ∈ (iter_steps env excludes roots follow_symlinks ignore_hidden todo).1 →
  ∃ root,
    root ∈ todo
    ∧ Listing d ys
      ∈ walk_steps env excludes roots follow_symlinks ignore_hidden root.
Proof.
  induction todo as [|root todo IH]; simpl; [by intros ?%elem_of_nil|].
  destruct (is_file env root) as [e|[]]; simpl;
    [by intros ?%elem_of_nil| |].
  - intros [?|Hin]%elem_of_cons; [done|].
    destruct (IH Hin) as (r & ? & ?). exists r. split; [by right|done].
  - intros [Hin|Hin]%elem_of_app.
    + exists root. split; [left|done].
    + destruct (IH Hin) as (r & ? & ?). exists r. split; [by right|done].
Qed.

Lemma iter_steps_complete (excludes : list string) (roots : list Path)
    (follow_symlinks ignore_hidden : bool) (todo : list Path)
    (root : Path) (s : step) :
  (iter_steps env excludes roots follow_symlinks ignore_hidden todo).2 = None →
  root ∈ todo →
  is_file env root = inr false →
  s ∈ walk_steps env excludes roots follow_symlinks ignore_hidden root →
  s ∈ (iter_steps env excludes roots follow_symlinks ignore_hidden todo).1.
Proof.
  intros Hend Hroot Hdir Hs.
  induction todo as [|r todo IH]; simpl in *; [by apply elem_of_nil in Hroot|].
  destruct (is_file env r) as [e|[]] eqn:Hr; simpl in *; [done| |].
  - apply elem_of_cons in Hroot as [->|Hroot]; [congruence|].
    right. by apply IH.
  - apply elem_of_app. apply elem_of_cons in Hroot as [->|Hroot]; [by left|].
    right. by apply IH.
Qed.

Lemma os_walk_visit (keep : string → bool) (followlinks : bool)
    (root : Path) (visit : Path * list string * list string) :
  visit ∈ os_walk env keep followlinks root →
  ∃ below,
    visit.1.1 = {| absolute := absolute root; names := names root ++ below |}
    ∧ Forall (λ d, keep d = true) below
    ∧ (wf_tree (root_dir env) = true →
       forallb valid_name below = true
       ∧ forallb valid_name visit.2 = true).
Proof.
  unfold os_walk.
  destruct (fs_lookup (root_dir env) (names root)) as [t|] eqn:Ht;
    [|by intros ?%elem_of_nil].
  intros Hvisit.
  destruct (walk_tree_visit _ _ _ _ _ Hvisit) as (below & ? & ? & Hwf).
  exists below. split; [done|]. split; [done|].
  intros Hroot. apply Hwf. by eapply fs_lookup_wf.
Qed.

(** What the loop over the file names of a directory yields. *)
Lemma files_in_elem (excludes : list string) (roots : list Path)
    (ignore_hidden : bool) (dpath : Path) (filenames : list string)
    (p : Path) :
  p ∈ files_in env excludes roots ignore_hidden dpath filenames ↔
  ∃ f, f ∈ filenames ∧ p = truediv dpath f
       ∧ ignore_hidden && _is_hidden p = false
       ∧ _should_exclude env p excludes roots = false
       ∧ is_file env p = inr true.
Proof.
  unfold files_in. rewrite list_elem_of_In, in_flat_map.
  setoid_rewrite <- list_elem_of_In. split.
  - intros (f & Hf & Hp). exists f. split; [done|].
    destruct (ignore_hidden && _is_hidden (truediv dpath f)) eqn:Hh;
      [by apply elem_of_nil in Hp|].
    destruct (_should_exclude env (truediv dpath f) excludes roots) eqn:Hx;
      [by apply elem_of_nil in Hp|].
    destruct (is_file env (truediv dpath f)) as [e|[]] eqn:Hf';
      try (by apply elem_of_nil in Hp).
    apply list_elem_of_singleton in Hp as ->. done.
  - intros (f & Hf & -> & Hh & Hx & Hf'). exists f. split; [done|].
    rewrite Hh, Hx, Hf'. apply list_elem_of_singleton. done.
Qed.

Lemma walk_root_elem (excludes : list string) (roots : list Path)
    (follow_symlinks ignore_hidden : bool) (root p : Path) :
  p ∈ walk_root env excludes roots follow_symlinks ignore_hidden root →
  ignore_hidden && _is_hidden p = false
  ∧ (wf_tree (root_dir env) = true → wf_path root = true →
     wf_path p = true).
Proof.
  unfold walk_root. rewrite list_elem_of_In, in_flat_map.
  intros (visit & Hvisit%list_elem_of_In & Hp%list_elem_of_In).
  apply files_in_elem in Hp as (f & Hf & -> & Hh & _).
  split; [done|]. intros Hwf Hroot.
  apply os_walk_visit in Hvisit as (below & -> & _ & Hvalid).
  destruct (Hvalid Hwf) as [Hbelow Hfiles].
  apply wf_path_truediv.
  - unfold wf_path in *. simpl.
    apply andb_true_iff in Hroot as [-> Hns]. simpl.
    by rewrite forallb_app, Hns, Hbelow.
  - rewrite forallb_forall in Hfiles. by apply Hfiles, list_elem_of_In.
Qed.

Lemma iter_roots_elem (excludes : list string) (roots : list Path)
    (follow_symlinks ignore_hidden : bool) (todo : list Path) (p : Path) :
  p ∈ (iter_roots env excludes roots follow_symlinks ignore_hidden todo).1 →
  ignore_hidden && _is_hidden p = false
  ∧ (wf_tree (root_dir env) = true → forallb wf_path todo = true →
     wf_path p = true).
Proof.
  induction todo as [|root todo IH]; simpl; [by intros ?%elem_of_nil|].
  destruct (is_file env root) as [e|[]]; simpl;
    [by intros ?%elem_of_nil| |].
  - intros [Hp|Hp]%elem_of_app.
    + destruct ((negb ignore_hidden || negb (_is_hidden root)) && _) eqn:Hc;
        [|by apply elem_of_nil in Hp].
      apply list_elem_of_singleton in Hp as ->.
      apply andb_true_iff in Hc as [Hc _]. split.
      * by destruct ignore_hidden, (_is_hidden root).
      * by intros _ [? _]%andb_true_iff.
    + destruct (IH Hp) as [? Hwf]. split; [done|].
      intros ? [_ ?]%andb_true_iff. by apply Hwf.
  - intros [Hp|Hp]%elem_of_app.
    + apply walk_root_elem in Hp as [? Hwf]. split; [done|].
      intros ? [? _]%andb_true_iff. by apply Hwf.
    + destruct (IH Hp) as [? Hwf]. split; [done|].
      intros ? [_ ?]%andb_true_iff. by apply Hwf.
Qed.

(** With [ignore_hidden] on, nothing that [iter_files] yields has a part
    that begins with a dot. *)
Lemma iter_files_not_hidden (paths : list Path) (excludes : list string)
    (follow_symlinks : bool) (p : Path) :
  p ∈ (iter_files env paths excludes follow_symlinks true).1 →
  _is_hidden p = false.
Proof. rewrite iter_files_unfold. by intros [? _]%iter_roots_elem. Qed.

Lemma iter_files_wf (paths : list Path) (excludes : list string)
    (follow_symlinks ignore_hidden : bool) (p : Path) :
  wf_tree (root_dir env) = true →
  forallb wf_path (map (resolve env) paths) = true →
  p ∈ (iter_files env paths excludes follow_symlinks ignore_hidden).1 →
  wf_path p = true.
Proof.
  rewrite iter_files_unfold. intros ? ? [_ Hwf]%iter_roots_elem. by apply Hwf.
Qed.

(** The keys of a built baseline are the strings of yielded paths. *)
Lemma build_loop_dom (algorithm : string) (track_perms : bool)
    (files : list Path) :
  ∀ b0 b : Baseline,
    for_each (build_step env algorithm track_perms) files b0 = inr b →
    ∀ k, k ∈ dom b → k ∈ dom b0 ∨ ∃ p, p ∈ files ∧ str p = k.
Proof.
  induction files as [|x files IH]; intros b0 b; simpl.
  { intros [= <-] k ?. by left. }
  unfold build_step at 1.
  destruct (from_path env x algorithm track_perms) as [e|info]; simpl.
  - destruct (is_OSError e); simpl; [|done].
    intros Hb k Hk. destruct (IH _ _ Hb k Hk) as [?|(p & ? & ?)]; [by left|].
    right. exists p. split; [by right|done].
  - intros Hb k Hk. destruct (IH _ _ Hb k Hk) as [Hk'|(p & ? & ?)].
    + apply dom_insert, elem_of_union in Hk' as [->%elem_of_singleton|?];
        [|by left].
      right. exists x. split; [left|done].
    + right. exists p. split; [by right|done].
Qed.

Lemma build_baseline_keys (paths : list Path) (excludes : list string)
    (algorithm : string) (follow_symlinks ignore_hidden track_perms : bool)
    (b : Baseline) (k : string) :
  build_baseline env paths excludes algorithm follow_symlinks ignore_hidden
    track_perms = inr b →
  k ∈ dom b →
  ∃ p, p ∈ (iter_files env (map (resolve env) paths) excludes
              follow_symlinks ignore_hidden).1 ∧ str p = k.
Proof.
  unfold build_baseline.
  destruct (for_each _ _ _) as [e|b'] eqn:Hloop; [done|]. cbn [bind].
  destruct (iter_files _ _ _ _ _).2; [done|]. intros [= <-] Hk.
  destruct (build_loop_dom _ _ _ _ _ Hloop k Hk) as [Hk'|?]; [|done].
  by rewrite dom_empty in Hk'.
Qed.

(** C6, as stated, fails: under the root [/home/.config/app] the run
    lists [/home/.config/app/cache], a directory below the root that is
    hidden; what lies in it is dropped after the walk, not before. *)
Lemma never_lists_hidden_fails :
  ¬ never_lists_hidden config_env [app] [] false.
Proof.
  intros H. specialize (H app_cache []).
  assert (_is_hidden app_cache = false) as Hhidden; [|done].
  apply H.
  - apply list_elem_of_In. vm_compute. right; left. reflexivity.
  - intros Hin%list_elem_of_In. vm_compute in Hin.
    by destruct Hin as [?|[]].
Qed.

(** C6, amended. With [ignore_hidden] on: no key of a built baseline has
    a segment that begins with a dot; nothing that [iter_files] yields has
    such a part; and every directory that the run of [iter_files] lists is
    reached from a resolved root through names that do not begin with a
    dot, so that below a root a dot-named directory is never entered.  The
    path of the root itself is not looked at by the walk. *)
Theorem hidden_pruning (paths : list Path) (excludes : list string)
    (algorithm : string) (follow_symlinks track_perms : bool) :
  wf_tree (root_dir env) = true →
  forallb wf_path (map (resolve env) (map (resolve env) paths)) = true →
  (∀ b k,
     build_baseline env paths excludes algorithm follow_symlinks true
       track_perms = inr b →
     k ∈ dom b → has_hidden_segment k = false)
  ∧ (∀ p, p ∈ (iter_files env paths excludes follow_symlinks true).1 →
          _is_hidden p = false)
  ∧ (∀ d ys,
       Listing d ys
       ∈ (iter_files_run env paths excludes follow_symlinks true).1 →
       ∃ root below,
         root ∈ map (resolve env) paths
         ∧ d = under root below
         ∧ Forall (λ n, startswith n "." = false) below).
Proof.
  intros Hwf Hroots. split; [|split].
  - intros b k Hb Hk.
    destruct (build_baseline_keys _ _ _ _ _ _ _ _ Hb Hk) as (p & Hp & <-).
    rewrite has_hidden_segment_str by by eapply iter_files_wf.
    by eapply iter_files_not_hidden.
  - intros p. apply iter_files_not_hidden.
  - intros d ys Hin. unfold iter_files_run in Hin.
    apply iter_steps_listing in Hin as (root & Hroot & Hin).
    apply walk_steps_listing in Hin as (visit & Hvisit & [= -> ->]).
    apply os_walk_visit in Hvisit as (below & Hd & Hbelow & _).
    exists root, below. split; [done|]. split; [by rewrite Hd|].
    eapply Forall_impl; [done|]. intros n. by apply keep_dir_hidden.
Qed.

(** C9. With [ignore_hidden] on, a root whose resolved path has a part
    that begins with a dot, wherever in the path, is not yielded by
    [iter_files], and its path string is no key of a built baseline. *)
Theorem hidden_root_never_yielded (paths : list Path)
    (excludes : list string) (algorithm : string)
    (follow_symlinks track_perms : bool) (root : Path) :
  wf_tree (root_dir env) = true →
  forallb wf_path (map (resolve env) (map (resolve env) paths)) = true →
  root ∈ map (resolve env) paths →
  wf_path root = true →
  _is_hidden root = true →
  (root ∉ (iter_files env paths excludes follow_symlinks true).1)
  ∧ (∀ b,
       build_baseline env paths excludes algorithm follow_symlinks true
         track_perms = inr b →
       b !! str root = None).
Proof.
  intros Hwf Hroots _ Hroot Hhidden. split.
  - intros Hin%iter_files_not_hidden. congruence.
  - intros b Hb. apply not_elem_of_dom. intros Hk.
    destruct (build_baseline_keys _ _ _ _ _ _ _ _ Hb Hk) as (p & Hp & Hstr).
    assert (has_hidden_segment (str p) = false) as Hseg.
    { rewrite has_hidden_segment_str by by eapply iter_files_wf.
      by eapply iter_files_not_hidden. }
    rewrite Hstr, has_hidden_segment_str in Hseg by done. congruence.
Qed.
End WalkerProperties.

(** ** The extractor and the builder *)

Section BuilderProperties.
Context (env : Env).


Lemma hash_file_unsupported (filepath : Path) (algorithm : string) :
  algorithms env algorithm = None →
  hash_file env filepath algorithm = inl (unsupported algorithm).
Proof. unfold hash_file. by intros ->. Qed.

Lemma from_path_unsupported (p : Path) (algorithm : string)
    (track_perms : bool) :
  algorithms env algorithm = None →
  from_path env p algorithm track_perms
  = match fs_stat env (str p) with
    | inl e => inl (OSError e)
    | inr _ => inl (unsupported algorithm)
    end.
Proof.
  intros Halg. unfold from_path, stat.
  destruct (fs_stat env (str p)); simpl; [done|].
  by rewrite hash_file_unsupported.
Qed.

(** With an unsupported algorithm the loop of [build_baseline] stops at
    the first file that [stat] accepts. *)
Lemma build_loop_unsupported (algorithm : string) (track_perms : bool)
    (files : list Path) (p : Path) (st : stat_result) :
  algorithms env algorithm = None →
  p ∈ files → fs_stat env (str p) = inr st →
  ∀ b0, for_each (build_step env algorithm track_perms) files b0
        = inl (unsupported algorithm).
Proof.
  intros Halg Hp Hst.
  induction files as [|x files IH]; intros b0; [by apply elem_of_nil in Hp|].
  simpl. unfold build_step at 1. rewrite from_path_unsupported by done.
  destruct (fs_stat env (str x)) as [e|st'] eqn:Hx; simpl; [|done].
  apply IH. apply elem_of_cons in Hp as [->|?]; [congruence|done].
Qed.

(** C2. For an algorithm that [hashlib] lacks: [hash_file] raises
    [ValueError] on every path; [from_path] returns no record on any
    path, raising the [OSError] of [stat] or else that [ValueError]; and
    when [iter_files] yields a file that [stat] accepts, [build_baseline]
    raises that [ValueError] to its caller and returns no baseline. *)
Theorem unsupported_algorithm_propagates (paths : list Path)
    (excludes : list string) (algorithm : string)
    (follow_symlinks ignore_hidden track_perms : bool)
    (p : Path) (st : stat_result) :
  algorithms env algorithm = None →
  p ∈ (iter_files env (map (resolve env) paths) excludes follow_symlinks
         ignore_hidden).1 →
  fs_stat env (str p) = inr st →
  (∀ filepath, hash_file env filepath algorithm
               = inl (unsupported algorithm))
  ∧ (∀ q tp, from_path env q algorithm tp = inl (unsupported algorithm)
             ∨ ∃ e, from_path env q algorithm tp = inl (OSError e))
  ∧ build_baseline env paths excludes algorithm follow_symlinks
      ignore_hidden track_perms = inl (unsupported algorithm).
Proof.
  intros Halg Hp Hst. split; [|split].
  - intros filepath. by apply hash_file_unsupported.
  - intros q tp. rewrite from_path_unsupported by done.
    destruct (fs_stat env (str q)); eauto.
  - unfold build_baseline.
    by erewrite build_loop_unsupported.
Qed.



End BuilderProperties.

(** ** The engine on the sample environment *)

(** With hidden files ignored the walk of [/etc] and [/home] yields three
    files; without, it also yields the two under dot-named directories,
    and the file root [/home/.ssh/id_rsa]. *)
Example iter_files_ignoring_hidden :
  iter_files sample_env [etc; home; id_rsa] [] false true
  = ([hosts; shadow; notes], None).
Proof. reflexivity. Qed.

Example iter_files_with_hidden :
  iter_files sample_env [etc; id_rsa] [] false false
  = ([hosts; shadow; mkPath true ["etc"; ".git"; "config"]; id_rsa], None).
Proof. reflexivity. Qed.

(** The walk does not list [/etc/.git] or [/home/.ssh]. *)
Example os_walk_prunes :
  map (λ visit, str visit.1.1)
      (os_walk sample_env (keep_dir true) false (mkPath true []))
  = ["/"; "/etc"; "/home"].
Proof. reflexivity. Qed.

Example os_walk_without_pruning :
  map (λ visit, str visit.1.1)
      (os_walk sample_env (keep_dir false) false (mkPath true []))
  = ["/"; "/etc"; "/etc/.git"; "/home"; "/home/.ssh"].
Proof. reflexivity. Qed.

(** A root is where the walk starts, whatever its name: the directory
    root [/home/.ssh] is listed, and its file is dropped by [_is_hidden]. *)
Example hidden_directory_root :
  map (λ visit, str visit.1.1)
      (os_walk sample_env (keep_dir true) false (mkPath true ["home"; ".ssh"]))
  = ["/home/.ssh"]
  ∧ iter_files sample_env [mkPath true ["home"; ".ssh"]] [] false true
    = ([], None).
Proof. split; reflexivity. Qed.

Example should_exclude_sample :
  _should_exclude sample_env notes ["*.txt"] [home] = true
  ∧ _should_exclude sample_env hosts ["etc/h*"] [mkPath true []] = true
  ∧ _should_exclude sample_env hosts ["etc/h*"] [etc; home] = false
  ∧ _should_exclude sample_env hosts ["/etc/*"] [] = true.
Proof. repeat split; reflexivity. Qed.

(** [/etc/shadow] cannot be opened and [/home/notes.txt] is gone: the
    baseline holds [/etc/hosts] alone. *)
Example build_baseline_sample :
  build_baseline sample_env [etc; home] [] "sha256" false true true
  = inr {[ "/etc/hosts" := FileInfo.mk "127.0.0.1" 9 mtime_1 (Some 420) ]}.
Proof. vm_compute. reflexivity. Qed.

(** The extendable-output algorithm is supported by [hashlib.new], and
    [hexdigest()] raises on it: neither an I/O failure nor a skip. *)
Example build_baseline_shake :
  build_baseline sample_env [etc] [] "shake_128" false true false
  = inl TypeError.
Proof. reflexivity. Qed.

(** With no file that [stat] accepts, an unsupported algorithm goes
    unnoticed. *)
Example build_baseline_nothing_to_hash :
  build_baseline sample_env [home] [] "md6" false true false = inr ∅.
Proof. reflexivity. Qed.

Example diff_states_sample :
  diff_states sample_prev sample_curr false
  = inr (mkDiff [] [] [] ["/etc/hosts"])
  ∧ diff_states sample_prev sample_touched false = inr (mkDiff [] [] [] [])
  ∧ diff_states sample_prev ∅ true = inr (mkDiff [] ["/etc/hosts"] [] [])
  ∧ diff_states ∅ sample_prev true = inr (mkDiff ["/etc/hosts"] [] [] []).
Proof. repeat split; reflexivity. Qed.

Lemma unsupported_algorithm_propagates_witness :
  (∀ filepath, hash_file sample_env filepath "md6" = inl (unsupported "md6"))
  ∧ (∀ q tp, from_path sample_env q "md6" tp = inl (unsupported "md6")
             ∨ ∃ e, from_path sample_env q "md6" tp = inl (OSError e))
  ∧ build_baseline sample_env [etc; home] [] "md6" false true false
    = inl (unsupported "md6").
Proof.
  apply (unsupported_algorithm_propagates sample_env [etc; home] [] "md6"
           false true false hosts hosts_stat).
  - reflexivity.
  - apply (bool_decide_unpack _). vm_compute. exact I.
  - reflexivity.
Defined.

Lemma hidden_pruning_witness :
  (∀ b k,
     build_baseline sample_env [etc; home; id_rsa] [] "sha256" false true true
     = inr b →
     k ∈ dom b → has_hidden_segment k = false)
  ∧ (∀ p, p ∈ (iter_files sample_env [etc; home; id_rsa] [] false true).1 →
          _is_hidden p = false)
  ∧ (∀ d ys,
       Listing d ys
       ∈ (iter_files_run sample_env [etc; home; id_rsa] [] false true).1 →
       ∃ root below,
         root ∈ map sample_resolve [etc; home; id_rsa]
         ∧ d = under root below
         ∧ Forall (λ n, startswith n "." = false) below).
Proof.
  apply (hidden_pruning sample_env [etc; home; id_rsa] [] "sha256" false true);
    reflexivity.
Defined.


Lemma hidden_root_never_yielded_witness :
  (id_rsa ∉ (iter_files sample_env [etc; id_rsa] [] false true).1)
  ∧ (∀ b,
       build_baseline sample_env [etc; id_rsa] [] "sha256" false true false
       = inr b →
       b !! str id_rsa = None).
Proof.
  apply (hidden_root_never_yielded sample_env [etc; id_rsa] [] "sha256"
           false false id_rsa).
  - reflexivity.
  - reflexivity.
  - apply (bool_decide_unpack _). vm_compute. exact I.
  - reflexivity.
  - reflexivity.
Defined.

(* ================================================================= *)
(** * Further properties *)

(** ** More on [diff_states] *)

Lemma sorted_nil_iff (keys : gset string) : sorted keys = [] ↔ keys = ∅.
Proof.
  split.
  - intros Hnil. apply set_eq. intros k.
    rewrite <- elem_of_sorted, Hnil, elem_of_nil. by rewrite elem_of_empty.
  - intros ->. destruct (sorted ∅) as [|k l] eqn:Hs; [done|].
    assert (k ∈ sorted ∅) as Hk by (rewrite Hs; left).
    apply elem_of_sorted in Hk. by apply elem_of_empty in Hk.
Qed.

Lemma filter_nil_iff {A} (f : A → bool) (l : list A) :
  List.filter f l = [] ↔ ∀ x, x ∈ l → f x = false.
Proof.
  split.
  - intros Hnil x Hx. destruct (f x) eqn:Hfx; [|done].
    assert (x ∈ List.filter f l) as Hin by by apply elem_of_filter_bool.
    rewrite Hnil in Hin. by apply elem_of_nil in Hin.
  - intros Hall. destruct (List.filter f l) as [|x l'] eqn:Hf; [done|].
    assert (x ∈ List.filter f l) as Hin by (rewrite Hf; left).
    apply elem_of_filter_bool in Hin as [Hx Hfx].
    rewrite (Hall x Hx) in Hfx. done.
Qed.

Lemma filter_sublist {A} (f g : A → bool) (l : list A) :
  (∀ x, f x = true → g x = true) →
  List.filter f l `sublist_of` List.filter g l.
Proof.
  intros Hfg. induction l as [|x l IH]; simpl; [done|].
  destruct (f x) eqn:Hf.
  - rewrite (Hfg x Hf). by apply sublist_skip.
  - destruct (g x); [by apply sublist_cons|done].
Qed.

(** A float equals itself unless it is a NaN. *)
Lemma SFeqb_self (f : spec_float) : SFeqb f f = negb (is_nan f).
Proof.
  unfold SFeqb. destruct f as [s|s| |s m e]; simpl; try done.
  - by destruct s.
  - change (Pos.compare_cont Eq m m) with (Pos.compare m m).
    rewrite Z.compare_refl, Pos.compare_refl. by destruct s.
Qed.

Lemma meta_drift_self (strict_mtime : bool) (r : FileInfo.t) :
  meta_drift strict_mtime r r = strict_mtime && is_nan (FileInfo.mtime r).
Proof.
  unfold meta_drift.
  assert (py_ne (FileInfo.size r) (FileInfo.size r) = false) as ->.
  { apply not_true_iff_false. rewrite py_ne_int. by intros []. }
  assert (py_ne (FileInfo.mode r) (FileInfo.mode r) = false) as ->.
  { apply not_true_iff_false. rewrite py_ne_optional_int. by intros []. }
  unfold py_ne at 1, py_eq, float_PyEq. rewrite SFeqb_self, negb_involutive.
  by rewrite orb_false_r.
Qed.

Lemma hash_differs_self (b : Baseline) (k : string) :
  hash_differs b b k = false.
Proof.
  unfold hash_differs. destruct (b !! k) as [r|]; [|done].
  apply not_true_iff_false. rewrite py_ne_str. by intros [].
Qed.

Lemma only_meta_differs_self (b : Baseline) (strict_mtime : bool)
    (k : string) (r : FileInfo.t) :
  b !! k = Some r →
  only_meta_differs b b strict_mtime k
  = strict_mtime && is_nan (FileInfo.mtime r).
Proof.
  intros Hk. unfold only_meta_differs. rewrite Hk, meta_drift_self.
  assert (py_ne (FileInfo.hash r) (FileInfo.hash r) = false) as ->; [|done].
  apply not_true_iff_false. rewrite py_ne_str. by intros [].
Qed.

(** A baseline diffed with itself, in closed form. *)
Lemma diff_states_self_nil (b : Baseline) (strict_mtime : bool) :
  strict_mtime = false
  ∨ map_Forall (λ _ r, is_nan (FileInfo.mtime r) = false) b →
  diff_states b b strict_mtime = inr (mkDiff [] [] [] []).
Proof.
  intros Hok. rewrite diff_states_eq. f_equal.
  assert (sorted (dom b ∖ dom b) = []) as ->.
  { apply sorted_nil_iff. apply set_eq. intros k.
    rewrite elem_of_difference, elem_of_empty. tauto. }
  assert (List.filter (hash_differs b b) (sorted (dom b ∩ dom b)) = []) as ->.
  { apply filter_nil_iff. intros k _. apply hash_differs_self. }
  assert (List.filter (only_meta_differs b b strict_mtime)
            (sorted (dom b ∩ dom b)) = []) as ->; [|done].
  apply filter_nil_iff. intros k Hk.
  apply elem_of_sorted, elem_of_intersection in Hk as [Hk _].
  apply elem_of_dom in Hk as [r Hr].
  rewrite (only_meta_differs_self _ _ _ _ Hr).
  destruct Hok as [->|Hnan]; [done|].
  rewrite (Hnan k r Hr). apply andb_false_r.
Qed.

(** X1. Diffing a baseline with itself reports nothing exactly when
    [strict_mtime] is off or no record of it has a NaN for mtime: under
    [strict_mtime] a NaN mtime is metadata drift against itself. *)
Theorem diff_states_self (b : Baseline) (strict_mtime : bool) :
  diff_states b b strict_mtime = inr (mkDiff [] [] [] [])
  ↔ strict_mtime = false
    ∨ map_Forall (λ _ r, is_nan (FileInfo.mtime r) = false) b.
Proof.
  split; [|apply diff_states_self_nil].
  rewrite diff_states_eq. intros [= _ _ _ Hmeta].
  destruct strict_mtime; [right|by left].
  intros k r Hr. rewrite filter_nil_iff in Hmeta.
  specialize (Hmeta k (elem_of_common _ _ _ _ _ Hr Hr)).
  by rewrite (only_meta_differs_self _ _ _ _ Hr) in Hmeta.
Qed.

(** X2. [strict_mtime] changes nothing in [added], [removed] and
    [modified], and only adds to [meta_changed]: the list reported without
    it is a sublist of the list reported with it. *)
Theorem strict_mtime_only_adds (prev curr : Baseline) :
  ∃ lax strict,
    diff_states prev curr false = inr lax
    ∧ diff_states prev curr true = inr strict
    ∧ added lax = added strict
    ∧ removed lax = removed strict
    ∧ modified lax = modified strict
    ∧ meta_changed lax `sublist_of` meta_changed strict.
Proof.
  do 2 eexists. split; [apply diff_states_eq|].
  split; [apply diff_states_eq|]. simpl. repeat split.
  apply filter_sublist. intros k. unfold only_meta_differs.
  destruct (prev !! k) as [p|], (curr !! k) as [c|]; try done.
  intros [Hh Hm]%andb_true_iff. apply andb_true_iff. split; [done|].
  apply meta_drift_spec in Hm. apply meta_drift_spec.
  destruct Hm as [?|[[? ?]|?]]; auto.
Qed.

(** X3. Against an empty previous baseline every key of the current one
    is added and nothing else is reported; against an empty current one
    every key of the previous one is removed. *)
Theorem diff_states_empty (b : Baseline) (strict_mtime : bool) :
  diff_states ∅ b strict_mtime = inr (mkDiff (sorted (dom b)) [] [] [])
  ∧ diff_states b ∅ strict_mtime = inr (mkDiff [] (sorted (dom b)) [] []).
Proof.
  rewrite !diff_states_eq, dom_empty_L.
  assert (dom b ∖ ∅ = dom b) as -> by (apply set_eq; intros k;
    rewrite elem_of_difference, elem_of_empty; tauto).
  assert ((∅ : gset string) ∖ dom b = ∅) as -> by (apply set_eq; intros k;
    rewrite elem_of_difference, elem_of_empty; tauto).
  assert (∅ ∩ dom b = (∅ : gset string)) as -> by (apply set_eq; intros k;
    rewrite elem_of_intersection, elem_of_empty; tauto).
  assert (dom b ∩ ∅ = (∅ : gset string)) as -> by (apply set_eq; intros k;
    rewrite elem_of_intersection, elem_of_empty; tauto).
  assert (sorted ∅ = []) as -> by by apply sorted_nil_iff.
  done.
Qed.

(** ** The exit code and the [watch] loop *)

Lemma truthy_false {A} (l : list A) : truthy l = false ↔ l = [].
Proof. by destruct l. Qed.

Lemma any_changed_false (r : DiffResult) :
  any_changed r = false ↔
  added r = [] ∧ removed r = [] ∧ modified r = [] ∧ meta_changed r = [].
Proof.
  unfold any_changed. rewrite !orb_false_iff, !truthy_false. tauto.
Qed.

(** [diff_states] reports nothing exactly on unchanged baselines. *)
Lemma diff_states_silent_iff (prev curr : Baseline) (strict_mtime : bool)
    (r : DiffResult) :
  diff_states prev curr strict_mtime = inr r →
  any_changed r = false ↔ unchanged prev curr strict_mtime.
Proof.
  rewrite diff_states_eq. intros [= <-].
  rewrite any_changed_false. simpl.
  rewrite !sorted_nil_iff, !filter_nil_iff. split.
  - intros (Hadd & Hrem & Hmod & Hmeta). split.
    + apply set_eq. intros k. split; intros Hk.
      * destruct (decide (k ∈ dom curr)) as [|Hn]; [done|].
        assert (k ∈ dom prev ∖ dom curr) as Hin by by apply elem_of_difference.
        rewrite Hrem in Hin. by apply elem_of_empty in Hin.
      * destruct (decide (k ∈ dom prev)) as [|Hn]; [done|].
        assert (k ∈ dom curr ∖ dom prev) as Hin by by apply elem_of_difference.
        rewrite Hadd in Hin. by apply elem_of_empty in Hin.
    + intros k p c Hp Hc.
      pose proof (elem_of_common _ _ _ _ _ Hp Hc) as Hk.
      specialize (Hmod k Hk). specialize (Hmeta k Hk).
      unfold hash_differs in Hmod. unfold only_meta_differs in Hmeta.
      rewrite Hp, Hc in Hmod, Hmeta. rewrite Hmod in Hmeta. split; [|done].
      destruct (decide (FileInfo.hash p = FileInfo.hash c)) as [|Hne]; [done|].
      apply py_ne_str in Hne. congruence.
  - intros [Hdom Hsame]. rewrite Hdom. split; [|split; [|split]].
    + apply set_eq. intros k. rewrite elem_of_difference, elem_of_empty. tauto.
    + apply set_eq. intros k. rewrite elem_of_difference, elem_of_empty. tauto.
    + intros k [Hk _]%elem_of_sorted%elem_of_intersection.
      unfold hash_differs.
      destruct (prev !! k) as [p|] eqn:Hp, (curr !! k) as [c|] eqn:Hc;
        try done.
      destruct (Hsame k p c Hp Hc) as [Hh _].
      apply not_true_iff_false. rewrite py_ne_str. intros Hne. by apply Hne.
    + intros k [Hk _]%elem_of_sorted%elem_of_intersection.
      unfold only_meta_differs.
      destruct (prev !! k) as [p|] eqn:Hp, (curr !! k) as [c|] eqn:Hc;
        try done.
      destruct (Hsame k p c Hp Hc) as [_ ->]. apply andb_false_r.
Qed.

(** X4. The exit code computed from a diff is 0 or 2, and it is 0
    exactly when the two baselines have the same keys and, at each key,
    the same hash and no metadata drift. *)
Theorem exit_code_of_diff (prev curr : Baseline) (strict_mtime : bool) :
  ∃ r, diff_states prev curr strict_mtime = inr r
       ∧ (_exit_code r = 0 ↔ unchanged prev curr strict_mtime)
       ∧ (_exit_code r = 2 ↔ ¬ unchanged prev curr strict_mtime).
Proof.
  eexists. split; [apply diff_states_eq|].
  pose proof (diff_states_silent_iff _ _ _ _ (diff_states_eq prev curr
                                                 strict_mtime)) as Hsilent.
  unfold _exit_code. destruct (any_changed _).
  - split; split; try done.
    + intros Hun. apply Hsilent in Hun. done.
    + intros _ Hun. apply Hsilent in Hun. done.
  - split; split; try done.
    + intros _. by apply Hsilent.
    + intros Hch. exfalso. apply Hch. by apply Hsilent.
Qed.

(** X6. A turn of the [watch] loop keeps the previous baseline when it
    reports nothing and takes the scan as the new one when it reports; and
    when [strict_mtime] is off or the scan has no NaN mtime, the next turn
    on an equal scan reports nothing: a change is reported once. *)
Theorem watch_reports_once (prev curr : Baseline) (strict_mtime : bool)
    (out : option DiffResult) (prev' : Baseline) :
  strict_mtime = false
  ∨ map_Forall (λ _ r, is_nan (FileInfo.mtime r) = false) curr →
  watch_turn prev curr strict_mtime = inr (out, prev') →
  (out = None ∧ prev' = prev ∨ (∃ r, out = Some r) ∧ prev' = curr)
  ∧ watch_turn prev' curr strict_mtime = inr (None, prev').
Proof.
  intros Hnan. unfold watch_turn at 1.
  destruct (diff_states prev curr strict_mtime) as [e|r] eqn:Hr; [done|].
  simpl. destruct (any_changed r) eqn:Hch; intros [= <- <-].
  - split; [right; eauto|].
    unfold watch_turn. by rewrite diff_states_self_nil.
  - split; [by left|]. unfold watch_turn. by rewrite Hr; simpl; rewrite Hch.
Qed.

Lemma watch_reports_once_witness :
  ((Some (mkDiff [] [] [] ["/etc/hosts"]) = None ∧ sample_curr = sample_prev)
   ∨ (∃ r, Some (mkDiff [] [] [] ["/etc/hosts"]) = Some r)
     ∧ sample_curr = sample_curr)
  ∧ watch_turn sample_curr sample_curr true = inr (None, sample_curr).
Proof.
  apply (watch_reports_once sample_prev sample_curr true
           (Some (mkDiff [] [] [] ["/etc/hosts"])) sample_curr).
  - right. apply (bool_decide_unpack _). vm_compute. exact I.
  - reflexivity.
Defined.

(** ** More on the walk *)

Lemma under_nil (top : Path) : under top [] = top.
Proof. destruct top. unfold under. simpl. by rewrite app_nil_r. Qed.

Lemma under_truediv (top : Path) (below : list string) (f : string) :
  truediv (under top below) f = under top (below ++ [f]).
Proof. unfold truediv, under. simpl. by rewrite app_assoc. Qed.

Lemma under_cons (top : Path) (d : string) (below : list string) :
  under (truediv top d) below = under top (d :: below).
Proof. unfold truediv, under. simpl. by rewrite <- app_assoc. Qed.

Lemma walk_tree_reach_1 (keep : string → bool) (followlinks : bool) (t : tree) :
  ∀ (top : Path) (visit : Path * list string * list string),
    visit ∈ walk_tree keep followlinks top t →
    ∃ below is_link entries,
      reach keep followlinks t below (Node is_link true entries)
      ∧ visit = (under top below, dirnames_of entries, filenames_of entries).
Proof.
  induction t as [probe|is_link ok entries IH] using tree_ind_entries;
    intros top visit Hvisit.
  { by apply elem_of_nil in Hvisit. }
  destruct ok; [|by apply elem_of_nil in Hvisit].
  rewrite walk_tree_Node in Hvisit.
  apply elem_of_cons in Hvisit as [->|Hvisit].
  - exists [], is_link, entries. rewrite under_nil. split; [constructor|done].
  - apply list_elem_of_In, in_flat_map in Hvisit as (e & He & Hvisit).
    apply list_elem_of_In in He, Hvisit.
    rewrite Forall_forall in IH. specialize (IH e He).
    unfold descend in Hvisit. destruct e as [d sub]. simpl in *.
    destruct sub as [|is_link' ok' sub]; [by apply elem_of_nil in Hvisit|].
    destruct (keep d && (followlinks || negb is_link')) eqn:Hkeep;
      [|by apply elem_of_nil in Hvisit].
    apply andb_true_iff in Hkeep as [Hkeep Hlink].
    destruct (IH _ _ Hvisit) as (below & l & es & Hreach & ->).
    exists (d :: below), l, es. rewrite under_cons. split; [|done].
    by eapply reach_step.
Qed.

Lemma walk_tree_reach_2 (keep : string → bool) (followlinks : bool)
    (t target : tree) (below : list string) :
  reach keep followlinks t below target →
  ∀ top is_link entries,
    target = Node is_link true entries →
    (under top below, dirnames_of entries, filenames_of entries)
    ∈ walk_tree keep followlinks top t.
Proof.
  induction 1 as [t|is_link0 is_link' ok' entries0 sub d below target
                    Hd Hkeep Hlink Hreach IH];
    intros top is_link entries ->.
  - rewrite walk_tree_Node, under_nil. left.
  - rewrite walk_tree_Node. right.
    apply list_elem_of_In, in_flat_map.
    exists (d, Node is_link' ok' sub). split; [by apply list_elem_of_In|].
    apply list_elem_of_In. unfold descend. cbn [fst snd].
    rewrite Hkeep, Hlink. cbn [andb]. rewrite <- under_cons.
    by apply (IH _ is_link entries).
Qed.

Section WalkCharacterisation.
Context (env : Env).

Lemma os_walk_reach (keep : string → bool) (followlinks : bool)
    (top : Path) (visit : Path * list string * list string) :
  visit ∈ os_walk env keep followlinks top
  ↔ ∃ t below is_link entries,
      fs_lookup (root_dir env) (names top) = Some t
      ∧ reach keep followlinks t below (Node is_link true entries)
      ∧ visit = (under top below, dirnames_of entries, filenames_of entries).
Proof.
  unfold os_walk. split.
  - destruct (fs_lookup (root_dir env) (names top)) as [t|];
      [|by intros ?%elem_of_nil].
    intros (below & l & es & ? & ?)%walk_tree_reach_1.
    by exists t, below, l, es.
  - intros (t & below & l & es & -> & Hreach & ->).
    by eapply walk_tree_reach_2.
Qed.

Lemma should_exclude_unfold (path : Path) (patterns : list string)
    (roots : list Path) :
  _should_exclude env path patterns roots
  = match_any env patterns (name path)
    || match_any env patterns (str path)
    || match_under_roots env path patterns roots.
Proof.
  unfold _should_exclude. destruct patterns as [|pat pats].
  - simpl. induction roots as [|root roots IH]; simpl; [done|].
    by destruct (relative_to path root).
  - by destruct (match_any env (pat :: pats) (name path)
                 || match_any env (pat :: pats) (str path)).
Qed.


Lemma is_file_directory (p : Path) (is_link ok : bool)
    (entries : list (string * tree)) :
  fs_lookup (root_dir env) (names p) = Some (Node is_link ok entries) →
  is_file env p = inr false.
Proof. unfold is_file. by intros ->. Qed.

Lemma reach_from_directory (keep : string → bool) (followlinks : bool)
    (t : tree) (below : list string) (is_link : bool)
    (entries : list (string * tree)) :
  reach keep followlinks t below (Node is_link true entries) →
  ∃ l ok es, t = Node l ok es.
Proof. inversion 1; subst; eauto. Qed.

(** X7. The directories that the run of [iter_files] lists are reached
    from a resolved root through listings that [scandir] gives, by names
    that do not begin with a dot when [ignore_hidden] is on, and through
    no symbolic link unless [follow_symlinks] is on, and what is yielded
    from each is what the loop over its file names gives; when no probe of
    a root raises, every directory so reached is listed. *)
Theorem iter_files_listings (paths : list Path) (excludes : list string)
    (follow_symlinks ignore_hidden : bool) :
  (∀ d ys,
     Listing d ys
     ∈ (iter_files_run env paths excludes follow_symlinks ignore_hidden).1 →
     ∃ root t below is_link entries,
       root ∈ map (resolve env) paths
       ∧ fs_lookup (root_dir env) (names root) = Some t
       ∧ reach (keep_dir ignore_hidden) follow_symlinks t below
           (Node is_link true entries)
       ∧ d = under root below
       ∧ ys = files_in env excludes (map (resolve env) paths) ignore_hidden d
                (filenames_of entries))
  ∧ ((iter_files_run env paths excludes follow_symlinks ignore_hidden).2
     = None →
     ∀ root t below is_link entries,
       root ∈ map (resolve env) paths →
       fs_lookup (root_dir env) (names root) = Some t →
       reach (keep_dir ignore_hidden) follow_symlinks t below
         (Node is_link true entries) →
       Listing (under root below)
         (files_in env excludes (map (resolve env) paths) ignore_hidden
            (under root below) (filenames_of entries))
       ∈ (iter_files_run env paths excludes follow_symlinks ignore_hidden).1).
Proof.
  unfold iter_files_run. split.
  - intros d ys Hin.
    apply iter_steps_listing in Hin as (root & Hroot & Hin).
    apply walk_steps_listing in Hin as (visit & Hvisit & [= -> ->]).
    apply os_walk_reach in Hvisit as (t & below & l & es & ? & ? & ->).
    by exists root, t, below, l, es.
  - intros Hend root t below l es Hroot Ht Hreach.
    destruct (reach_from_directory _ _ _ _ _ _ Hreach) as (l' & ok & es' & ->).
    eapply iter_steps_complete; [done|done|by eapply is_file_directory|].
    apply walk_steps_listing.
    exists (under root below, dirnames_of es, filenames_of es).
    split; [|done]. apply os_walk_reach. by exists (Node l' ok es'), below, l, es.
Qed.

(** What the walk of one root yields. *)
Lemma walk_root_iff (excludes : list string) (roots : list Path)
    (follow_symlinks ignore_hidden : bool) (root p : Path) :
  p ∈ walk_root env excludes roots follow_symlinks ignore_hidden root
  ↔ ignore_hidden && _is_hidden p = false
    ∧ _should_exclude env p excludes roots = false
    ∧ is_file env p = inr true
    ∧ ∃ t below is_link entries f,
        fs_lookup (root_dir env) (names root) = Some t
        ∧ reach (keep_dir ignore_hidden) follow_symlinks t below
            (Node is_link true entries)
        ∧ f ∈ filenames_of entries
        ∧ p = under root (below ++ [f]).
Proof.
  unfold walk_root. rewrite list_elem_of_In, in_flat_map.
  setoid_rewrite <- list_elem_of_In. split.
  - intros (visit & Hvisit & Hp).
    apply os_walk_reach in Hvisit as (t & below & l & es & ? & ? & ->).
    apply files_in_elem in Hp as (f & Hf & -> & ? & ? & ?). simpl in *.
    rewrite under_truediv in *. repeat (split; [done|]).
    by exists t, below, l, es, f.
  - intros (? & ? & ? & t & below & l & es & f & ? & ? & ? & ->).
    exists (under root below, dirnames_of es, filenames_of es). split.
    + apply os_walk_reach. by exists t, below, l, es.
    + apply files_in_elem. exists f. simpl. by rewrite under_truediv.
Qed.

Lemma yielded_from_cons (excludes : list string) (roots : list Path)
    (follow_symlinks ignore_hidden : bool) (root : Path) (todo : list Path)
    (p : Path) :
  yielded_from env excludes roots follow_symlinks ignore_hidden todo p →
  yielded_from env excludes roots follow_symlinks ignore_hidden (root :: todo) p.
Proof.
  intros (? & ? & ? & [?|(r & t & below & l & es & f & ? & ?)]);
    repeat (split; [done|]).
  - left. by right.
  - right. exists r, t, below, l, es, f. split; [by right|done].
Qed.

Lemma iter_roots_sound (excludes : list string) (roots : list Path)
    (follow_symlinks ignore_hidden : bool) (todo : list Path) (p : Path) :
  p ∈ (iter_roots env excludes roots follow_symlinks ignore_hidden todo).1 →
  yielded_from env excludes roots follow_symlinks ignore_hidden todo p.
Proof.
  induction todo as [|root todo IH]; simpl; [by intros ?%elem_of_nil|].
  destruct (is_file env root) as [e|[]] eqn:Hroot; simpl;
    [by intros ?%elem_of_nil| |].
  - intros [Hp|Hp]%elem_of_app; [|by apply yielded_from_cons, IH].
    destruct ((negb ignore_hidden || negb (_is_hidden root))
              && negb (_should_exclude env root excludes roots)) eqn:Hc;
      [|by apply elem_of_nil in Hp].
    apply list_elem_of_singleton in Hp as ->.
    apply andb_true_iff in Hc as [Hh Hx%negb_true_iff].
    split; [by destruct ignore_hidden, (_is_hidden root)|].
    repeat (split; [done|]). left. left.
  - intros [Hp|Hp]%elem_of_app; [|by apply yielded_from_cons, IH].
    apply walk_root_iff in Hp
      as (? & ? & ? & t & below & l & es & f & ? & ? & ? & ?).
    repeat (split; [done|]). right.
    exists root, t, below, l, es, f. split; [left|done].
Qed.

Lemma iter_roots_complete (excludes : list string) (roots : list Path)
    (follow_symlinks ignore_hidden : bool) (todo : list Path) (p : Path) :
  (iter_roots env excludes roots follow_symlinks ignore_hidden todo).2 = None →
  yielded_from env excludes roots follow_symlinks ignore_hidden todo p →
  p ∈ (iter_roots env excludes roots follow_symlinks ignore_hidden todo).1.
Proof.
  intros Hend (Hh & Hx & Hf & Hfrom).
  induction todo as [|root todo IH]; simpl in *.
  { destruct Hfrom as [?%elem_of_nil|(? & ? & ? & ? & ? & ? & ?%elem_of_nil & _)];
      done. }
  destruct (is_file env root) as [e|[]] eqn:Hroot; simpl in *; [done| |].
  - apply elem_of_app.
    destruct Hfrom as [[->|?]%elem_of_cons
                      |(r & t & below & l & es & f & [->|?]%elem_of_cons & Ht
                        & Hreach & ? & ?)].
    + left. rewrite Hx. simpl.
      assert (negb ignore_hidden || negb (_is_hidden root) = true) as ->
        by by destruct ignore_hidden, (_is_hidden root).
      left.
    + right. apply IH; [done|by left].
    + destruct (reach_from_directory _ _ _ _ _ _ Hreach) as (? & ? & ? & ->).
      rewrite (is_file_directory _ _ _ _ Ht) in Hroot. done.
    + right. apply IH; [done|]. right. by exists r, t, below, l, es, f.
  - apply elem_of_app.
    destruct Hfrom as [[->|?]%elem_of_cons
                      |(r & t & below & l & es & f & [->|?]%elem_of_cons & Ht
                        & Hreach & ? & ?)].
    + congruence.
    + right. apply IH; [done|by left].
    + left. apply walk_root_iff. repeat (split; [done|]).
      by exists t, below, l, es, f.
    + right. apply IH; [done|]. right. by exists r, t, below, l, es, f.
Qed.
End WalkCharacterisation.

Lemma is_hidden_under (root : Path) (below : list string) :
  _is_hidden root = true → _is_hidden (under root below) = true.
Proof.
  unfold _is_hidden, parts, under. simpl. intros Hroot.
  by rewrite app_assoc, existsb_app, Hroot.
Qed.

Section WalkerExtras.
Context (env : Env).

(** X8. What [iter_files] yields is a regular file that is not excluded
    and, under [ignore_hidden], not hidden, and that is either a root or a
    non-directory entry of a directory that the walk of a root visits; and
    when no probe of a root raises, every such file is yielded. *)
Theorem iter_files_yields_iff (paths : list Path) (excludes : list string)
    (follow_symlinks ignore_hidden : bool) (p : Path) :
  (p ∈ (iter_files env paths excludes follow_symlinks ignore_hidden).1 →
   yielded_from env excludes (map (resolve env) paths) follow_symlinks
     ignore_hidden (map (resolve env) paths) p)
  ∧ ((iter_files env paths excludes follow_symlinks ignore_hidden).2 = None →
     yielded_from env excludes (map (resolve env) paths) follow_symlinks
       ignore_hidden (map (resolve env) paths) p →
     p ∈ (iter_files env paths excludes follow_symlinks ignore_hidden).1).
Proof.
  rewrite iter_files_unfold. split.
  - apply iter_roots_sound.
  - apply iter_roots_complete.
Qed.


(** X10. Roots that do not exist are passed over in silence: when the
    roots resolve and no resolved root is found in the file system,
    [build_baseline] returns the empty baseline, whatever the algorithm. *)
Theorem missing_roots_give_empty_baseline (paths : list Path)
    (excludes : list string) (algorithm : string)
    (follow_symlinks ignore_hidden track_perms : bool) :
  Forall (λ p, fs_lookup (root_dir env)
                 (names (resolve env (resolve env p))) = None) paths →
  build_baseline env paths excludes algorithm follow_symlinks ignore_hidden
    track_perms = inr ∅.
Proof.
  intros Hmissing. unfold build_baseline. rewrite iter_files_unfold.
  assert (∀ roots todo,
            Forall (λ r, fs_lookup (root_dir env) (names r) = None) todo →
            iter_roots env excludes roots follow_symlinks ignore_hidden todo
            = ([], None)) as Hnone.
  { intros roots todo. induction 1 as [|root todo Hroot _ IH]; [done|].
    simpl. unfold is_file, walk_root, os_walk. rewrite Hroot, IH. done. }
  rewrite Hnone; [done|].
  rewrite !Forall_fmap. eapply Forall_impl; [done|]. done.
Qed.

(** X11. With [ignore_hidden] on, roots whose own resolved path has a
    part that begins with a dot yield nothing, directories included:
    whatever lies below them is dropped. *)
Theorem hidden_roots_yield_nothing (paths : list Path)
    (excludes : list string) (follow_symlinks : bool) :
  Forall (λ p, _is_hidden (resolve env p) = true) paths →
  (iter_files env paths excludes follow_symlinks true).1 = [].
Proof.
  intros Hhidden.
  destruct (iter_files env paths excludes follow_symlinks true).1
    as [|p rest] eqn:Hyield; [done|].
  assert (p ∈ (iter_files env paths excludes follow_symlinks true).1) as Hp
    by (rewrite Hyield; left).
  rewrite iter_files_unfold in Hp.
  apply iter_roots_sound in Hp as (Hh & _ & _ & Hfrom). simpl in Hh.
  rewrite Forall_forall in Hhidden.
  assert (∀ root, root ∈ map (resolve env) paths → _is_hidden root = true)
    as Hroots.
  { intros root (q & -> & Hq)%list_elem_of_fmap. by apply Hhidden. }
  destruct Hfrom as [Hin|(root & _ & below & _ & _ & f & Hin & _ & _ & _ & ->)].
  - rewrite (Hroots p Hin) in Hh. done.
  - rewrite (is_hidden_under _ _ (Hroots root Hin)) in Hh. done.
Qed.
End WalkerExtras.

(** ** More on the extractor and the builder *)

Lemma S_IMODE_mod (mode : Z) : S_IMODE mode = mode `mod` 4096.
Proof. unfold S_IMODE. change 4095 with (Z.ones 12). by rewrite Z.land_ones. Qed.

Lemma read_loop_chunks (chunks : list (list Byte.byte)) :
  Forall (λ chunk, chunk ≠ []) chunks →
  ∀ fed, read_loop fed (stream_of_chunks chunks)
         = inr (fed ++ List.concat chunks).
Proof.
  induction 1 as [|chunk chunks Hchunk _ IH]; intros fed; simpl.
  { by rewrite app_nil_r. }
  destruct chunk as [|byte chunk]; [done|].
  rewrite IH. by rewrite <- app_assoc.
Qed.

Section BuilderExtras.
Context (env : Env).

(** X12. The hash of a file does not depend on how its content comes in
    chunks: when the reads deliver non-empty chunks and then the end of the
    file, [hash_file] returns the digest of their concatenation (or raises
    [TypeError] if the algorithm gives no plain hex digest). *)
Theorem hash_file_chunks (filepath : Path) (algorithm : string)
    (digest : list Byte.byte → option string)
    (chunks : list (list Byte.byte)) :
  algorithms env algorithm = Some digest →
  fs_open env (str filepath) = inr (stream_of_chunks chunks) →
  Forall (λ chunk, chunk ≠ []) chunks →
  hash_file env filepath algorithm
  = match digest (List.concat chunks) with
    | Some hex => inr hex
    | None => inl TypeError
    end.
Proof.
  intros Halg Hopen Hchunks. unfold hash_file. rewrite Halg, Hopen.
  by rewrite (read_loop_chunks _ Hchunks).
Qed.

Lemma from_path_inv (p : Path) (algorithm : string) (track_perms : bool)
    (info : FileInfo.t) :
  from_path env p algorithm track_perms = inr info →
  ∃ st hex,
    fs_stat env (str p) = inr st
    ∧ hash_file env p algorithm = inr hex
    ∧ info = FileInfo.mk hex (st_size st) (st_mtime st)
               (if track_perms then Some (st_mode st `mod` 4096) else None).
Proof.
  unfold from_path, stat.
  destruct (fs_stat env (str p)) as [e|st]; simpl; [done|].
  destruct (hash_file env p algorithm) as [e|hex]; simpl; [done|].
  intros [= <-]. exists st, hex. by rewrite S_IMODE_mod.
Qed.

(** Every record of the loop's result was there before or is what the
    extractor gives for a file of the list. *)
Lemma build_loop_records (algorithm : string) (track_perms : bool)
    (files : list Path) :
  ∀ b0 b : Baseline,
    for_each (build_step env algorithm track_perms) files b0 = inr b →
    ∀ k info, b !! k = Some info →
      b0 !! k = Some info
      ∨ ∃ p, p ∈ files ∧ str p = k
             ∧ from_path env p algorithm track_perms = inr info.
Proof.
  induction files as [|x files IH]; intros b0 b; simpl.
  { intros [= <-] k info ?. by left. }
  unfold build_step at 1.
  destruct (from_path env x algorithm track_perms) as [e|info'] eqn:Hx; simpl.
  - destruct (is_OSError e); simpl; [|done].
    intros Hb k info Hk.
    destruct (IH _ _ Hb k info Hk) as [?|(p & ? & ? & ?)]; [by left|].
    right. exists p. split; [by right|done].
  - intros Hb k info Hk.
    destruct (IH _ _ Hb k info Hk) as [Hk'|(p & ? & ? & ?)].
    + destruct (decide (str x = k)) as [<-|Hne].
      * rewrite lookup_insert_eq in Hk'. injection Hk' as <-.
        right. exists x. split; [left|done].
      * rewrite lookup_insert_ne in Hk' by done. by left.
    + right. exists p. split; [by right|done].
Qed.

(** X15. Every record of a built baseline is what the extractor gives
    for a yielded file with that path string; its mode is [None] when
    permissions are not tracked, and a number from 0 to 4095 when they
    are. *)
Theorem build_baseline_records (paths : list Path) (excludes : list string)
    (algorithm : string) (follow_symlinks ignore_hidden track_perms : bool)
    (b : Baseline) (k : string) (info : FileInfo.t) :
  build_baseline env paths excludes algorithm follow_symlinks ignore_hidden
    track_perms = inr b →
  b !! k = Some info →
  (∃ p, p ∈ (iter_files env (map (resolve env) paths) excludes
               follow_symlinks ignore_hidden).1
        ∧ str p = k
        ∧ from_path env p algorithm track_perms = inr info)
  ∧ (track_perms = false → FileInfo.mode info = None)
  ∧ (track_perms = true →
     ∃ m, FileInfo.mode info = Some m ∧ 0 ≤ m < 4096).
Proof.
  unfold build_baseline.
  destruct (for_each _ _ _) as [e|b'] eqn:Hloop; [done|]. cbn [bind].
  destruct (iter_files _ _ _ _ _).2; [done|]. intros [= <-] Hk.
  destruct (build_loop_records _ _ _ _ _ Hloop k info Hk)
    as [Hempty|(p & Hp & Hstr & Hfrom)];
    [by rewrite lookup_empty in Hempty|].
  split; [by exists p|].
  apply from_path_inv in Hfrom as (st & hex & _ & _ & ->).
  split; intros ->; simpl; [done|].
  eexists. split; [done|]. by apply Z.mod_pos_bound.
Qed.
End BuilderExtras.

Lemma built_record (env : Env) (paths : list Path) (excludes : list string)
    (algorithm : string) (follow_symlinks ignore_hidden track_perms : bool)
    (b : Baseline) (k : string) (info : FileInfo.t) :
  build_baseline env paths excludes algorithm follow_symlinks ignore_hidden
    track_perms = inr b →
  b !! k = Some info →
  ∃ p, from_path env p algorithm track_perms = inr info.
Proof.
  unfold build_baseline.
  destruct (for_each _ _ _) as [e|b'] eqn:Hloop; [done|]. cbn [bind].
  destruct (iter_files _ _ _ _ _).2; [done|]. intros [= <-] Hk.
  destruct (build_loop_records _ _ _ _ _ _ Hloop k info Hk)
    as [Hempty|(p & _ & _ & Hfrom)];
    [by rewrite lookup_empty in Hempty|].
  by exists p.
Qed.

(** X16. A baseline built with permission tracking, diffed with one
    built without: every path that both hold is reported, as modified or
    as metadata drift, since a recorded mode differs from an absent one. *)
Theorem mixed_tracking_reports_all (env1 env2 : Env)
    (paths1 paths2 : list Path) (excludes1 excludes2 : list string)
    (algorithm1 algorithm2 : string)
    (follow_symlinks1 follow_symlinks2 ignore_hidden1 ignore_hidden2 : bool)
    (prev curr : Baseline) (strict_mtime : bool) :
  build_baseline env1 paths1 excludes1 algorithm1 follow_symlinks1
    ignore_hidden1 true = inr prev →
  build_baseline env2 paths2 excludes2 algorithm2 follow_symlinks2
    ignore_hidden2 false = inr curr →
  ∃ r, diff_states prev curr strict_mtime = inr r
       ∧ ∀ k, k ∈ dom prev → k ∈ dom curr →
              k ∈ modified r ∨ k ∈ meta_changed r.
Proof.
  intros Hprev Hcurr. eexists. split; [apply diff_states_eq|]. simpl.
  intros k [p Hp]%elem_of_dom [c Hc]%elem_of_dom.
  destruct (built_record _ _ _ _ _ _ _ _ _ _ Hprev Hp) as [fp Hfp].
  destruct (built_record _ _ _ _ _ _ _ _ _ _ Hcurr Hc) as [fc Hfc].
  apply from_path_inv in Hfp as (stp & hp & _ & _ & Hpi).
  apply from_path_inv in Hfc as (stc & hc & _ & _ & Hci).
  rewrite !elem_of_filter_bool, hash_differs_spec, only_meta_differs_spec.
  pose proof (elem_of_common _ _ _ _ _ Hp Hc) as Hk.
  destruct (decide (FileInfo.hash p = FileInfo.hash c)) as [Heq|Hne].
  - right. split; [done|]. exists p, c. repeat (split; [done|]).
    right; right. by rewrite Hpi, Hci.
  - left. split; [done|]. by exists p, c.
Qed.

(** ** Baseline keys *)

Lemma concat_names_nonempty (n : string) (ns : list string) :
  valid_name n = true → String.concat "/" (n :: ns) ≠ "".
Proof.
  destruct n as [|c n]; [done|]. intros _. by destruct ns.
Qed.

Lemma concat_names_inj (ns1 ns2 : list string) :
  forallb valid_name ns1 = true → forallb valid_name ns2 = true →
  String.concat "/" ns1 = String.concat "/" ns2 → ns1 = ns2.
Proof.
  intros H1 H2 Heq.
  destruct ns1 as [|n1 ns1], ns2 as [|n2 ns2]; [done| | |].
  - apply andb_true_iff in H2 as [Hn _]. symmetry in Heq.
    by apply concat_names_nonempty in Heq.
  - apply andb_true_iff in H1 as [Hn _].
    by apply concat_names_nonempty in Heq.
  - rewrite <- (split_on_concat (n1 :: ns1)), <- (split_on_concat (n2 :: ns2))
      by done.
    by rewrite Heq.
Qed.

(** X17. Two well-formed paths with the same path string are the same
    path: a key of a baseline stands for one file. *)
Theorem str_inj (p q : Path) :
  wf_path p = true → wf_path q = true → str p = str q → p = q.
Proof.
  destruct p as [ap nsp], q as [aq nsq]. unfold wf_path, str. simpl.
  intros [-> Hp]%andb_true_iff [-> Hq]%andb_true_iff.
  change ("/" +:+ ?s) with (String "/" s). intros [= Heq].
  f_equal. by apply concat_names_inj.
Qed.

(** ** [load_config] *)

Lemma setdefault_union (key : string) (value : json) (d : gmap string json) :
  setdefault key value d = d ∪ {[key := value]}.
Proof.
  unfold setdefault. apply map_eq. intros k.
  rewrite lookup_union.
  destruct (d !! key) as [v|] eqn:Hkey.
  - destruct (decide (key = k)) as [<-|Hne].
    + by rewrite Hkey, lookup_singleton_eq.
    + rewrite lookup_singleton_ne by done. by destruct (d !! k).
  - destruct (decide (key = k)) as [<-|Hne].
    + by rewrite lookup_insert_eq, Hkey, lookup_singleton_eq.
    + rewrite lookup_insert_ne, lookup_singleton_ne by done.
      by destruct (d !! k).
Qed.

(** X18. [load_config] raises what reading the file raises, and
    [AttributeError] when the file holds no JSON object; on an object it
    returns the object with the five defaults added under it: a key that
    the file gives keeps its value, whatever it is, and loading the result
    again changes nothing. *)
Theorem load_config_defaults :
  (∀ e, load_config (inl e) = inl (Raised e))
  ∧ (∀ v, (∀ cfg, v ≠ JDict cfg) → load_config (inr v) = inl AttributeError)
  ∧ (∀ cfg, load_config (inr (JDict cfg)) = inr (cfg ∪ config_defaults))
  ∧ (∀ cfg key value, cfg !! key = Some value →
       (cfg ∪ config_defaults) !! key = Some value)
  ∧ (∀ cfg, load_config (inr (JDict (cfg ∪ config_defaults)))
            = inr (cfg ∪ config_defaults)).
Proof.
  assert (∀ cfg, load_config (inr (JDict cfg)) = inr (cfg ∪ config_defaults))
    as Hload.
  { intros cfg. unfold load_config. rewrite !setdefault_union. f_equal.
    rewrite <- !(assoc_L (∪)). f_equal. }
  split; [done|]. split; [|split; [done|split]].
  - intros v Hv. destruct v; try done. by destruct (Hv members).
  - intros cfg key value Hkey. by apply lookup_union_Some_l.
  - intros cfg. rewrite Hload. f_equal.
    rewrite <- (assoc_L (∪)). by rewrite (idemp_L (∪) config_defaults).
Qed.

(** ** The further properties on the sample environment *)

(** Under the dot-named root [/home/.config/app] the run lists the root
    and the directory below it, and yields none of their files. *)
Example iter_files_run_hidden_root :
  iter_files_run config_env [app] [] false true
  = ([Listing app []; Listing app_cache []], None)
  ∧ iter_files_run config_env [app] [] false false
    = ([Listing app [mkPath true ["home"; ".config"; "app"; "settings.ini"]];
        Listing app_cache
          [mkPath true ["home"; ".config"; "app"; "cache"; "blob"]]],
       None).
Proof. split; reflexivity. Qed.

(** The run over [/etc] and [/home] with hidden files ignored: the two
    dot-named directories are not listed. *)
Example iter_files_run_sample :
  iter_files_run sample_env [etc; home] [] false true
  = ([Listing etc [hosts; shadow]; Listing home [notes]], None).
Proof. reflexivity. Qed.

(** The probe of [/locked/f.txt] ends the generator, after the files of
    [/etc] were yielded, and [build_baseline] with it. *)
Example build_baseline_locked_root :
  iter_files locked_env [etc; locked_file] [] false true
  = ([hosts; shadow], Some (OSError PermissionError))
  ∧ build_baseline locked_env [etc; locked_file] [] "sha256" false true false
    = inl (OSError PermissionError).
Proof. split; reflexivity. Qed.

(** The walk lists [/srv/current], a link to a directory, among the
    directory names, and enters it only when links are followed. *)
Example os_walk_symlink :
  os_walk linked_env (keep_dir true) false (mkPath true ["srv"])
  = [(mkPath true ["srv"], ["current"], ["readme"])]
  ∧ map (λ visit, str visit.1.1)
        (os_walk linked_env (keep_dir true) true (mkPath true ["srv"]))
    = ["/srv"; "/srv/current"]
  ∧ (iter_files linked_env [mkPath true ["srv"]] [] false true).1
    = [mkPath true ["srv"; "readme"]]
  ∧ (iter_files linked_env [mkPath true ["srv"]] [] true true).1
    = [mkPath true ["srv"; "readme"]; mkPath true ["srv"; "current"; "app.conf"]].
Proof. repeat split; reflexivity. Qed.

(** Under [strict_mtime] a record with a NaN mtime drifts from itself. *)
Example diff_states_self_nan :
  diff_states {[ "/etc/hosts" := FileInfo.mk "9f86d0" 120 S754_nan None ]}
              {[ "/etc/hosts" := FileInfo.mk "9f86d0" 120 S754_nan None ]} true
  = inr (mkDiff [] [] [] ["/etc/hosts"]).
Proof. reflexivity. Qed.

Example load_config_sample :
  load_config (inr (JDict {[ "paths" := JList [JStr "/etc"];
                             "ignore_hidden" := JNull ]}))
  = inr {[ "paths" := JList [JStr "/etc"];
           "ignore_hidden" := JNull;
           "excludes" := JList [];
           "algorithm" := JStr "sha256";
           "follow_symlinks" := JBool false ]}
  ∧ load_config (inr (JList [])) = inl AttributeError.
Proof. split; [vm_compute|]; reflexivity. Qed.


Lemma missing_roots_give_empty_baseline_witness :
  build_baseline sample_env [mkPath true ["var"; "log"]] [] "md6" false true
    false = inr ∅.
Proof.
  apply (missing_roots_give_empty_baseline sample_env
           [mkPath true ["var"; "log"]] [] "md6" false true false).
  constructor; [reflexivity|constructor].
Defined.

Lemma hidden_roots_yield_nothing_witness :
  (iter_files sample_env [mkPath true ["home"; ".ssh"]] [] false true).1 = [].
Proof.
  apply (hidden_roots_yield_nothing sample_env [mkPath true ["home"; ".ssh"]]
           [] false).
  constructor; [reflexivity|constructor].
Defined.

Lemma hash_file_chunks_witness :
  hash_file sample_env hosts "sha256" = inr "127.0.0.1".
Proof.
  apply (hash_file_chunks sample_env hosts "sha256"
           (λ content, Some (String.string_of_list_byte content))
           [String.list_byte_of_string "127.0.0.1"]).
  - reflexivity.
  - reflexivity.
  - constructor; [discriminate|constructor].
Defined.

Lemma build_baseline_records_witness :
  (∃ p, p ∈ (iter_files sample_env (map sample_resolve [etc; home]) [] false
               true).1
        ∧ str p = "/etc/hosts"
        ∧ from_path sample_env p "sha256" true
          = inr (FileInfo.mk "127.0.0.1" 9 mtime_1 (Some 420)))
  ∧ (true = false →
     FileInfo.mode (FileInfo.mk "127.0.0.1" 9 mtime_1 (Some 420)) = None)
  ∧ (true = true →
     ∃ m, FileInfo.mode (FileInfo.mk "127.0.0.1" 9 mtime_1 (Some 420))
          = Some m ∧ 0 ≤ m < 4096).
Proof.
  apply (build_baseline_records sample_env [etc; home] [] "sha256" false true
           true (sample_built (Some 420)) "/etc/hosts").
  - vm_compute. reflexivity.
  - reflexivity.
Defined.

Lemma mixed_tracking_reports_all_witness :
  ∃ r, diff_states (sample_built (Some 420)) (sample_built None) false = inr r
       ∧ ∀ k, k ∈ dom (sample_built (Some 420)) →
              k ∈ dom (sample_built None) →
              k ∈ modified r ∨ k ∈ meta_changed r.
Proof.
  apply (mixed_tracking_reports_all sample_env sample_env [etc; home]
           [etc; home] [] [] "sha256" "sha256" false false true true).
  - vm_compute. reflexivity.
  - vm_compute. reflexivity.
Defined.

Lemma str_inj_witness :
  sample_resolve (mkPath false ["etc"; ""; "hosts"]) = hosts.
Proof.
  apply (str_inj (sample_resolve (mkPath false ["etc"; ""; "hosts"])) hosts);
    reflexivity.
Defined.

(** ** How the scan depends on its options *)

Lemma flat_map_sublist {A B} (f g : A → list B) (l : list A) :
  (∀ x, f x `sublist_of` g x) → flat_map f l `sublist_of` flat_map g l.
Proof.
  intros Hfg. induction l as [|x l IH]; simpl; [done|]. by apply sublist_app.
Qed.

Lemma reach_mono (keep keep' : string → bool) (followlinks followlinks' : bool)
    (t target : tree) (below : list string) :
  (∀ d, keep d = true → keep' d = true) →
  implb followlinks followlinks' = true →
  reach keep followlinks t below target →
  reach keep' followlinks' t below target.
Proof.
  intros Hkeep Hlinks. induction 1 as [|??????????? IH]; [constructor|].
  eapply reach_step; [done|by apply Hkeep| |done].
  by destruct followlinks, followlinks', is_link'.
Qed.

Section OptionProperties.
Context (env : Env).

Lemma match_any_app (patterns more : list string) (s : string) :
  match_any env (patterns ++ more) s
  = match_any env patterns s || match_any env more s.
Proof. unfold match_any. apply existsb_app. Qed.

Lemma should_exclude_more (path : Path) (patterns more : list string)
    (roots : list Path) :
  _should_exclude env path patterns roots = true →
  _should_exclude env path (patterns ++ more) roots = true.
Proof.
  rewrite !should_exclude_unfold, !match_any_app.
  intros [[->| ->]%orb_true_iff|Hroots]%orb_true_iff;
    [done|by rewrite !orb_true_r|].
  apply match_under_roots_spec in Hroots as (root & rel & ? & ? & Hm).
  assert (match_under_roots env path (patterns ++ more) roots = true) as ->;
    [|by rewrite orb_true_r].
  apply match_under_roots_spec. exists root, rel.
  by rewrite match_any_app, Hm.
Qed.

Lemma files_in_more_excludes (patterns more : list string) (roots : list Path)
    (ignore_hidden : bool) (dpath : Path) (filenames : list string) :
  files_in env (patterns ++ more) roots ignore_hidden dpath filenames
  `sublist_of` files_in env patterns roots ignore_hidden dpath filenames.
Proof.
  unfold files_in. apply flat_map_sublist. intros fname. simpl.
  destruct (ignore_hidden && _is_hidden (truediv dpath fname)); [done|].
  destruct (_should_exclude env (truediv dpath fname) patterns roots) eqn:Hx.
  - by rewrite (should_exclude_more _ _ more _ Hx).
  - destruct (_should_exclude env (truediv dpath fname) (patterns ++ more)
                roots); [apply sublist_nil_l|done].
Qed.

Lemma iter_roots_more_excludes (patterns more : list string)
    (roots : list Path) (follow_symlinks ignore_hidden : bool)
    (todo : list Path) :
  (iter_roots env (patterns ++ more) roots follow_symlinks ignore_hidden
     todo).1
  `sublist_of`
  (iter_roots env patterns roots follow_symlinks ignore_hidden todo).1
  ∧ (iter_roots env (patterns ++ more) roots follow_symlinks ignore_hidden
       todo).2
    = (iter_roots env patterns roots follow_symlinks ignore_hidden todo).2.
Proof.
  induction todo as [|root todo [IHy IHe]]; simpl; [done|].
  destruct (is_file env root) as [e|[]]; simpl; [done| |].
  - split; [|done]. apply sublist_app; [|done].
    destruct (negb ignore_hidden || negb (_is_hidden root)); simpl; [|done].
    destruct (_should_exclude env root patterns roots) eqn:Hx.
    + by rewrite (should_exclude_more _ _ more _ Hx).
    + destruct (_should_exclude env root (patterns ++ more) roots); simpl;
        [apply sublist_nil_l|done].
  - split; [|done]. apply sublist_app; [|done].
    unfold walk_root. apply flat_map_sublist. intros visit.
    apply files_in_more_excludes.
Qed.

(** X19. More exclude patterns never bring a file in: the files that
    [iter_files] yields with patterns added are, in the same order, among
    those it yields without them, and the generator ends the same way. *)
Theorem more_excludes_fewer_files (paths : list Path)
    (patterns more : list string) (follow_symlinks ignore_hidden : bool) :
  (iter_files env paths (patterns ++ more) follow_symlinks ignore_hidden).1
  `sublist_of`
  (iter_files env paths patterns follow_symlinks ignore_hidden).1
  ∧ (iter_files env paths (patterns ++ more) follow_symlinks ignore_hidden).2
    = (iter_files env paths patterns follow_symlinks ignore_hidden).2.
Proof. rewrite !iter_files_unfold. apply iter_roots_more_excludes. Qed.

(** How the generator ends depends on the probes of the roots alone. *)
Lemma iter_roots_ended (excludes excludes' : list string)
    (roots roots' : list Path)
    (follow_symlinks follow_symlinks' ignore_hidden ignore_hidden' : bool)
    (todo : list Path) :
  (iter_roots env excludes roots follow_symlinks ignore_hidden todo).2
  = (iter_roots env excludes' roots' follow_symlinks' ignore_hidden' todo).2.
Proof.
  induction todo as [|root todo IH]; simpl; [done|].
  by destruct (is_file env root) as [e|[]].
Qed.

(** X20. Turning [ignore_hidden] off or [follow_symlinks] on never
    loses a file: when no probe of a root raises, a file yielded under
    given options is yielded under options that ignore hidden files no
    more and follow links no less. *)
Theorem laxer_options_keep_files (paths : list Path) (excludes : list string)
    (follow_symlinks follow_symlinks' ignore_hidden ignore_hidden' : bool)
    (p : Path) :
  implb follow_symlinks follow_symlinks' = true →
  implb ignore_hidden' ignore_hidden = true →
  (iter_files env paths excludes follow_symlinks ignore_hidden).2 = None →
  p ∈ (iter_files env paths excludes follow_symlinks ignore_hidden).1 →
  p ∈ (iter_files env paths excludes follow_symlinks' ignore_hidden').1.
Proof.
  rewrite !iter_files_unfold. intros Hlinks Hhidden Hend Hp.
  apply iter_roots_complete.
  { by rewrite (iter_roots_ended _ excludes _ (map (resolve env) paths) _
                  follow_symlinks _ ignore_hidden). }
  apply iter_roots_sound in Hp as (Hh & ? & ? & Hfrom).
  split; [|split; [done|split; [done|]]].
  - destruct ignore_hidden', ignore_hidden; done.
  - destruct Hfrom as [?|(root & t & below & l & es & f & ? & ? & Hreach & ?)];
      [by left|right].
    exists root, t, below, l, es, f. repeat (split; [done|]).
    split; [|done]. eapply reach_mono; [|done|done].
    intros d. unfold keep_dir. by destruct ignore_hidden', ignore_hidden.
Qed.

(** X21. Every key of a built baseline is the path string of a regular
    file that is a resolved root or lies below one. *)
Theorem baseline_keys_under_roots (paths : list Path) (excludes : list string)
    (algorithm : string) (follow_symlinks ignore_hidden track_perms : bool)
    (b : Baseline) (k : string) :
  build_baseline env paths excludes algorithm follow_symlinks ignore_hidden
    track_perms = inr b →
  k ∈ dom b →
  ∃ root below,
    root ∈ map (resolve env) (map (resolve env) paths)
    ∧ k = str (under root below)
    ∧ is_file env (under root below) = inr true.
Proof.
  intros Hb Hk.
  destruct (build_baseline_keys _ _ _ _ _ _ _ _ _ Hb Hk) as (p & Hp & <-).
  rewrite iter_files_unfold in Hp.
  apply iter_roots_sound in Hp as (_ & _ & Hf & Hfrom).
  destruct Hfrom as [?|(root & t & below & l & es & f & ? & _ & _ & _ & ->)].
  - exists p, []. by rewrite under_nil.
  - by exists root, (below ++ [f]).
Qed.
End OptionProperties.

Lemma laxer_options_keep_files_witness :
  hosts ∈ (iter_files sample_env [etc; home] [] true false).1.
Proof.
  apply (laxer_options_keep_files sample_env [etc; home] [] false true true
           false hosts).
  - reflexivity.
  - reflexivity.
  - reflexivity.
  - apply (bool_decide_unpack _). vm_compute. exact I.
Defined.

Lemma baseline_keys_under_roots_witness :
  ∃ root below,
    root ∈ map sample_resolve (map sample_resolve [etc; home])
    ∧ "/etc/hosts" = str (under root below)
    ∧ is_file sample_env (under root below) = inr true.
Proof.
  apply (baseline_keys_under_roots sample_env [etc; home] [] "sha256" false
           true true (sample_built (Some 420)) "/etc/hosts").
  - vm_compute. reflexivity.
  - apply elem_of_dom. by eexists.
Defined.
